(** * midGPT: the training engine of [src/train.py], embedded and verified

    The engine is the module [src/train.py] of the package (sharding,
    gradient accumulation, checkpoints); the script [train.py] at the root
    is its single-device forerunner and is embedded where the two differ.

    The first part holds the embedding: Python exceptions as an error monad,
    JAX arrays and pytrees, the model tree, the sharding manager
    [shard_gpt], the optimizer state, the checkpoint manager and the
    start-up code of [train], the batch sampler [get_batch], the loss
    function, the learning-rate schedule, the optimizer chain and the
    gradient accumulation of [step].  The second part holds the properties
    proved about these definitions.

    Library code the scripts call (jax, equinox, optax, orbax, numpy) is
    embedded from the behaviour its documentation gives; each such
    definition says which library function it stands for.  Floating-point
    numbers are real numbers wherever their values matter. *)

From Stdlib Require Import String Bool Arith ZArith Lia List Reals Lra.
Import ListNotations.

Set Implicit Arguments.
Set Warnings "-register-all,-abstract-large-number".

(* ================================================================== *)
(** * Part I: the embedding                                            *)
(* ================================================================== *)

(** ** Python exceptions *)

Inductive exn : Type :=
| AssertionError (msg : string)
| AttributeError (msg : string)
| ValueError (msg : string)
| TypeError (msg : string)
| IndexError (msg : string)
| ZeroDivisionError (msg : string)
| FileNotFoundError (msg : string).

(** A Python call either returns a value or raises. *)
Inductive result (A : Type) : Type :=
| Ok (a : A)
| Raise (e : exn).

Arguments Ok {A} a.
Arguments Raise {A} e.

Definition bind {A B : Type} (r : result A) (k : A -> result B) : result B :=
  match r with
  | Ok a => k a
  | Raise e => Raise e
  end.

Notation "x <- r ;; k" := (bind r (fun x => k))
  (at level 61, r at next level, right associativity).

Notation "' p <- r ;; k" := (bind r (fun p => k))
  (at level 61, p pattern, r at next level, right associativity).

(** [[f(x) for x in xs]] where [f] may raise: the first exception wins. *)
Fixpoint mapM {A B : Type} (f : A -> result B) (xs : list A) : result (list B) :=
  match xs with
  | [] => Ok []
  | x :: rest =>
      y <- f x ;;
      ys <- mapM f rest ;;
      Ok (y :: ys)
  end.

Definition returns {A : Type} (r : result A) : bool :=
  match r with
  | Ok _ => true
  | Raise _ => false
  end.

(** ** JAX arrays and their placement *)

Module Jax.

(** [jax.sharding.Mesh]: the devices and the names of the mesh axes. *)
Record Mesh : Type := mkMesh {
  devices : list nat;
  axis_names : list string;
}.

(** [jax.sharding.PartitionSpec]: per array axis, the mesh axis it is split
    along, or [None] when the axis is replicated. *)
Definition PartitionSpec : Type := list (option string).

Definition P (axes : list (option string)) : PartitionSpec := axes.

Record NamedSharding : Type := mkNamedSharding {
  mesh : Mesh;
  spec : PartitionSpec;
}.

Inductive DType : Type := bfloat16 | float16 | float32 | float64 | int32.

(** A [jax.Array]: element type, shape, the bit patterns of its elements,
    and the placement it carries (none until one is set). *)
Record Array : Type := mkArray {
  dtype : DType;
  shape : list nat;
  bits : list Z;
  sharding : option NamedSharding;
}.

(** [jax.lax.with_sharding_constraint]: the same values under the given
    placement. *)
Definition with_sharding_constraint (x : Array) (s : NamedSharding) : Array :=
  {| dtype := dtype x; shape := shape x; bits := bits x; sharding := Some s |}.

(** Leaves of a pytree that are no arrays (a dropout rate, a flag). *)
Inductive PyObject : Type :=
| PyFloat (b : Z)
| PyInt (n : Z)
| PyBool (b : bool).

Inductive leaf : Type :=
| LArray (a : Array)
| LObject (o : PyObject).

(** [isinstance(x, jax.Array)] *)
Definition is_array (x : leaf) : bool :=
  match x with
  | LArray _ => true
  | LObject _ => false
  end.

(** The pytree interface of [jax.tree_util]: a registered type flattens to
    its leaves and its structure, and is rebuilt from both. *)
Class PyTree (T : Type) : Type := {
  PyTreeDef : Type;
  tree_leaves : T -> list leaf;
  tree_structure : T -> PyTreeDef;
  tree_unflatten : PyTreeDef -> list leaf -> result T;
}.

(** What the rest of the code relies on: flattening and rebuilding are
    inverse to each other. *)
Class PyTreeLaws (T : Type) {PT : PyTree T} : Prop := {
  unflatten_flatten :
    forall t : T, tree_unflatten (tree_structure t) (tree_leaves t) = Ok t;
  flatten_unflatten :
    forall (d : PyTreeDef) (ls : list leaf) (t : T),
      tree_unflatten d ls = Ok t -> tree_structure t = d /\ tree_leaves t = ls;
}.

Arguments PyTreeLaws T {PT}.

End Jax.

Import Jax.

(** ** The model tree *)

Module Model.

(** The layer classes [shard_gpt] tests with [isinstance]. *)
Inductive layer_cls : Type := CLinear | CEmbedding | CLayerNorm.

(** Modelled from the spec: the model classes of [src/model.py] (absent
    here).  Section 3 describes the parameter tree as an ordered, named
    hierarchy of tensors: embeddings, per-layer weights and biases,
    normalization scales.  [Linear] and [LayerNorm] are the equinox layers
    with a [weight] and an optional [bias]; [Embedding] is the class the
    script imports from the model file and reads [.weight] of; every other
    module is a node over its fields, and a field may hold an array, another
    Python object or [None]. *)
Inductive GPT : Type :=
| Linear (weight : Array) (bias : option Array)
| Embedding (weight : Array)
| LayerNorm (weight : Array) (bias : option Array)
| ArrayLeaf (x : Array)
| ObjLeaf (o : PyObject)
| NoneNode
| EqxModule (name : string) (fields : list GPT).

Definition opt_leaves (b : option Array) : list leaf :=
  match b with
  | Some a => [LArray a]
  | None => []
  end.

(** [jtu.tree_leaves(model)] *)
Fixpoint gpt_leaves (m : GPT) : list leaf :=
  match m with
  | Linear w b => LArray w :: opt_leaves b
  | Embedding w => [LArray w]
  | LayerNorm w b => LArray w :: opt_leaves b
  | ArrayLeaf x => [LArray x]
  | ObjLeaf o => [LObject o]
  | NoneNode => []
  | EqxModule _ fs => flat_map gpt_leaves fs
  end.

(** The structure of a model: the tree with its leaves taken out. *)
Inductive GPTDef : Type :=
| DLinear (has_bias : bool)
| DEmbedding
| DLayerNorm (has_bias : bool)
| DLeaf
| DNone
| DModule (name : string) (fields : list GPTDef).

Definition has (b : option Array) : bool :=
  match b with
  | Some _ => true
  | None => false
  end.

(** [jtu.tree_structure(model)] *)
Fixpoint gpt_structure (m : GPT) : GPTDef :=
  match m with
  | Linear _ b => DLinear (has b)
  | Embedding _ => DEmbedding
  | LayerNorm _ b => DLayerNorm (has b)
  | ArrayLeaf _ => DLeaf
  | ObjLeaf _ => DLeaf
  | NoneNode => DNone
  | EqxModule n fs => DModule n (map gpt_structure fs)
  end.

Definition too_few : exn := ValueError "Too few leaves for PyTreeDef".
Definition too_many : exn := ValueError "Too many leaves for PyTreeDef".

(** Takes the next leaf, which must be an array: the weight and bias slots
    of this typed tree hold arrays only. *)
Definition take_array (ls : list leaf) : result (Array * list leaf) :=
  match ls with
  | [] => Raise too_few
  | LArray a :: rest => Ok (a, rest)
  | LObject _ :: _ => Raise (TypeError "layer parameter is not an array")
  end.

Definition take_bias (has_bias : bool) (ls : list leaf)
  : result (option Array * list leaf) :=
  if has_bias
  then '(a, rest) <- take_array ls ;; Ok (Some a, rest)
  else Ok (None, ls).

(** Fills the structure from the front of the leaf sequence and hands back
    the leaves it did not use. *)
Fixpoint gpt_fill (d : GPTDef) (ls : list leaf) {struct d}
  : result (GPT * list leaf) :=
  match d with
  | DLinear hb =>
      '(w, r1) <- take_array ls ;;
      '(b, r2) <- take_bias hb r1 ;;
      Ok (Linear w b, r2)
  | DEmbedding =>
      '(w, r1) <- take_array ls ;;
      Ok (Embedding w, r1)
  | DLayerNorm hb =>
      '(w, r1) <- take_array ls ;;
      '(b, r2) <- take_bias hb r1 ;;
      Ok (LayerNorm w b, r2)
  | DLeaf =>
      match ls with
      | [] => Raise too_few
      | LArray a :: rest => Ok (ArrayLeaf a, rest)
      | LObject o :: rest => Ok (ObjLeaf o, rest)
      end
  | DNone => Ok (NoneNode, ls)
  | DModule n ds =>
      '(fs, rest) <-
        (fix fill_fields (ds : list GPTDef) (ls : list leaf) {struct ds}
           : result (list GPT * list leaf) :=
           match ds with
           | [] => Ok ([], ls)
           | d :: ds' =>
               '(f, r1) <- gpt_fill d ls ;;
               '(fs, r2) <- fill_fields ds' r1 ;;
               Ok (f :: fs, r2)
           end) ds ls ;;
      Ok (EqxModule n fs, rest)
  end.

(** The inner loop of [gpt_fill] over the fields of a module. *)
Definition fill_fields : list GPTDef -> list leaf -> result (list GPT * list leaf) :=
  fix fill_fields (ds : list GPTDef) (ls : list leaf) {struct ds}
    : result (list GPT * list leaf) :=
    match ds with
    | [] => Ok ([], ls)
    | d :: ds' =>
        '(f, r1) <- gpt_fill d ls ;;
        '(fs, r2) <- fill_fields ds' r1 ;;
        Ok (f :: fs, r2)
    end.

(** [jtu.tree_unflatten(treedef, leaves)]: every leaf must be used. *)
Definition gpt_unflatten (d : GPTDef) (ls : list leaf) : result GPT :=
  '(m, rest) <- gpt_fill d ls ;;
  match rest with
  | [] => Ok m
  | _ :: _ => Raise too_many
  end.

#[export] Instance GPT_PyTree : PyTree GPT := {|
  PyTreeDef := GPTDef;
  tree_leaves := gpt_leaves;
  tree_structure := gpt_structure;
  tree_unflatten := gpt_unflatten;
|}.

End Model.

Import Model.

(** ** The sharding manager ([shard_gpt] and its helpers) *)

Module Sharding.

(** [isinstance(x, layer_cls)], for [layer_cls] a class or a tuple of
    classes.  Arrays, other objects, [None] and the other modules are
    instances of none of the three layer classes. *)
Definition cls_of (x : GPT) : option layer_cls :=
  match x with
  | Linear _ _ => Some CLinear
  | Embedding _ => Some CEmbedding
  | LayerNorm _ _ => Some CLayerNorm
  | _ => None
  end.

Definition cls_eqb (a b : layer_cls) : bool :=
  match a, b with
  | CLinear, CLinear | CEmbedding, CEmbedding | CLayerNorm, CLayerNorm => true
  | _, _ => false
  end.

Definition isinstance (x : GPT) (layer_cls : list layer_cls) : bool :=
  match cls_of x with
  | Some c => existsb (cls_eqb c) layer_cls
  | None => false
  end.

Definition opt_nodes (b : option Array) : list GPT :=
  match b with
  | Some a => [ArrayLeaf a]
  | None => []
  end.

(** [jtu.tree_leaves(model, is_leaf=matches_cls)]: the traversal stops at
    every node [is_leaf] accepts and returns that node whole; elsewhere it
    goes down to the leaves. *)
Fixpoint tree_leaves_is_leaf (is_leaf : GPT -> bool) (m : GPT) : list GPT :=
  if is_leaf m then [m]
  else
    match m with
    | Linear w b => ArrayLeaf w :: opt_nodes b
    | Embedding w => [ArrayLeaf w]
    | LayerNorm w b => ArrayLeaf w :: opt_nodes b
    | ArrayLeaf x => [ArrayLeaf x]
    | ObjLeaf o => [ObjLeaf o]
    | NoneNode => []
    | EqxModule _ fs => flat_map (tree_leaves_is_leaf is_leaf) fs
    end.

(** Get all layers of model matching layer_cls. *)
Definition get_layers (model : GPT) (layer_cls : list layer_cls) : list GPT :=
  let matches_cls := fun x => isinstance x layer_cls in
  filter (fun x => matches_cls x) (tree_leaves_is_leaf matches_cls model).

(** [l.weight] *)
Definition weight (l : GPT) : result Array :=
  match l with
  | Linear w _ => Ok w
  | Embedding w => Ok w
  | LayerNorm w _ => Ok w
  | _ => Raise (AttributeError "weight")
  end.

Definition set_weight (l : GPT) (w : Array) : GPT :=
  match l with
  | Linear _ b => Linear w b
  | Embedding _ => Embedding w
  | LayerNorm _ b => LayerNorm w b
  | _ => l
  end.

(** The selectors [get_lin_wts] and [get_ln_wts] of [shard_gpt] differ in
    the classes they look for only. *)
Definition get_wts (layer_cls : list layer_cls) (m : GPT) : result (list Array) :=
  mapM weight (get_layers m layer_cls).

Definition lin_cls : list layer_cls := [CLinear; CEmbedding].
Definition ln_cls : list layer_cls := [CLayerNorm].

Definition get_lin_wts (m : GPT) : result (list Array) := get_wts lin_cls m.
Definition get_ln_wts (m : GPT) : result (list Array) := get_wts ln_cls m.

(** Walks the tree in leaf order and puts the next replacement in the place
    of the weight of every layer of the given classes; returns the
    replacements left over. *)
Fixpoint replace_wts (layer_cls : list layer_cls) (m : GPT) (replace : list Array)
  {struct m} : GPT * list Array :=
  if isinstance m layer_cls then
    match replace with
    | w :: rest => (set_weight m w, rest)
    | [] => (m, [])
    end
  else
    match m with
    | EqxModule n fs =>
        let '(fs', rest) :=
          (fix replace_fields (fs : list GPT) (replace : list Array) {struct fs}
             : list GPT * list Array :=
             match fs with
             | [] => ([], replace)
             | f :: fs0 =>
                 let '(f', r1) := replace_wts layer_cls f replace in
                 let '(fs1, r2) := replace_fields fs0 r1 in
                 (f' :: fs1, r2)
             end) fs replace in
        (EqxModule n fs', rest)
    | _ => (m, replace)
    end.

(** [eqx.tree_at(where, model, replace)] for [where] one of the two weight
    selectors: as many replacements as selected weights, each put in the
    place of the weight it stands for. *)
Definition tree_at (layer_cls : list layer_cls) (model : GPT) (replace : list Array)
  : result GPT :=
  nodes <- get_wts layer_cls model ;;
  if Nat.eqb (length nodes) (length replace)
  then Ok (fst (replace_wts layer_cls model replace))
  else Raise (ValueError "`where` must return a sequence of leaves of the same length as `replace`.").

(** Shard model parameters (or replicate if shard_model is False). *)
Definition shard_gpt (model : GPT) (mesh : Mesh) (shard_model : bool)
  (sharding_fn : Array -> NamedSharding -> Array) : result GPT :=
  let '(lin_sharding, ln_sharding) :=
    if shard_model
    then (mkNamedSharding mesh (P [None; Some "data"%string]),
          mkNamedSharding mesh (P [Some "data"%string]))
    else (mkNamedSharding mesh (P [None; None]),
          mkNamedSharding mesh (P [None])) in
  lin_wts <- get_lin_wts model ;;
  let sharded_lin_wts := map (fun w => sharding_fn w lin_sharding) lin_wts in
  model <- tree_at lin_cls model sharded_lin_wts ;;
  ln_wts <- get_ln_wts model ;;
  let sharded_ln_wts := map (fun w => sharding_fn w ln_sharding) ln_wts in
  model <- tree_at ln_cls model sharded_ln_wts ;;
  let n_wts := length (filter is_array (tree_leaves model)) in
  if Nat.eqb n_wts (length sharded_lin_wts + length sharded_ln_wts)
  then Ok model
  else Raise (AssertionError "Some parameters are not being sharded!").

End Sharding.

Import Sharding.

(** ** The experiment configuration *)

Module Config.

(** Modelled from the spec: [GPTConfig] of [src/model.py] (absent here), with
    the fields [configs/openwebtext.py] sets and section 6 lists as model
    hyperparameters. *)
Record GPTConfig : Type := mkGPTConfig {
  block_size : nat;
  vocab_size : nat;
  n_layer : nat;
  n_head : nat;
  n_embd : nat;
  dropout : R;
}.

Record ExperimentConfig : Type := mkExperimentConfig {
  rundir : string;
  data_dir : string;
  learning_rate : R;
  batch_size : nat;
  warmup_steps : Z;
  min_lr : R;
  lr_decay_steps : Z;
  max_steps : Z;
  beta2 : R;
  weight_decay : R;
  eval_interval : Z;
  policy : string;
  g_accum_iters : nat;
  shard_model : bool;
  model_config : GPTConfig;
  debug : bool;
}.

End Config.

Import Config.

(** ** Views of the model in which the properties of [shard_gpt] are stated *)

Module ShardingSpec.

Definition own_weight (m : GPT) : list Array :=
  match m with
  | Linear w _ => [w]
  | Embedding w => [w]
  | LayerNorm w _ => [w]
  | _ => []
  end.

(** The weights of the layers of the given classes, in leaf order. *)
Fixpoint layer_wts (cs : list layer_cls) (m : GPT) : list Array :=
  if isinstance m cs then own_weight m
  else
    match m with
    | EqxModule _ fs => flat_map (layer_wts cs) fs
    | _ => []
    end.

Definition map_own_weight (f : Array -> Array) (m : GPT) : GPT :=
  match m with
  | Linear w b => Linear (f w) b
  | Embedding w => Embedding (f w)
  | LayerNorm w b => LayerNorm (f w) b
  | _ => m
  end.

(** The model with [f] applied to the weight of every layer of the given
    classes, and nothing else touched. *)
Fixpoint map_wts (cs : list layer_cls) (f : Array -> Array) (m : GPT) : GPT :=
  if isinstance m cs then map_own_weight f m
  else
    match m with
    | EqxModule n fs => EqxModule n (map (map_wts cs f) fs)
    | _ => m
    end.

(** The inner loop of [replace_wts] over the fields of a module. *)
Definition replace_fields (cs : list layer_cls)
  : list GPT -> list Array -> list GPT * list Array :=
  fix replace_fields (fs : list GPT) (replace : list Array) {struct fs}
    : list GPT * list Array :=
    match fs with
    | [] => ([], replace)
    | f :: fs0 =>
        let '(f', r1) := replace_wts cs f replace in
        let '(fs1, r2) := replace_fields fs0 r1 in
        (f' :: fs1, r2)
    end.

(** The count [n_wts] of [shard_gpt]: the array-valued leaves. *)
Definition n_arrays (m : GPT) : nat :=
  length (filter is_array (tree_leaves m)).

(** The count on the other side of the assertion: the weights handed to
    [sharding_fn], those of the Linear and Embedding layers and those of the
    LayerNorm layers. *)
Definition n_placed (m : GPT) : nat :=
  length (layer_wts lin_cls m) + length (layer_wts ln_cls m).

Definition opt_list (b : option Array) : list Array :=
  match b with
  | Some a => [a]
  | None => []
  end.

(** The arrays of the model that are the weight of no Linear, Embedding or
    LayerNorm layer: the biases of the layers, and the arrays held by any
    other module. *)
Fixpoint unplaced (m : GPT) : list Array :=
  match m with
  | Linear _ b => opt_list b
  | Embedding _ => []
  | LayerNorm _ b => opt_list b
  | ArrayLeaf x => [x]
  | ObjLeaf _ => []
  | NoneNode => []
  | EqxModule _ fs => flat_map unplaced fs
  end.

(** The bias tensors of the layers. *)
Fixpoint biases (m : GPT) : list Array :=
  match m with
  | Linear _ b => opt_list b
  | LayerNorm _ b => opt_list b
  | EqxModule _ fs => flat_map biases fs
  | _ => []
  end.

(** The two placements [shard_gpt] chooses between. *)
Definition lin_sharding (mesh : Mesh) (shard_model : bool) : NamedSharding :=
  if shard_model
  then mkNamedSharding mesh (P [None; Some "data"%string])
  else mkNamedSharding mesh (P [None; None]).

Definition ln_sharding (mesh : Mesh) (shard_model : bool) : NamedSharding :=
  if shard_model
  then mkNamedSharding mesh (P [Some "data"%string])
  else mkNamedSharding mesh (P [None]).

(** What [shard_gpt] hands back when its assertion holds. *)
Definition placed (sharding_fn : Array -> NamedSharding -> Array)
  (mesh : Mesh) (shard_model : bool) (m : GPT) : GPT :=
  map_wts ln_cls (fun w => sharding_fn w (ln_sharding mesh shard_model))
    (map_wts lin_cls (fun w => sharding_fn w (lin_sharding mesh shard_model)) m).

Definition not_sharded : exn :=
  AssertionError "Some parameters are not being sharded!".

End ShardingSpec.

Import ShardingSpec.

(** ** The optimizer state as a pytree *)

Module OptimizerState.

(** The state [optimizer.init] builds for the chain of [train].  optax keeps
    one state per transformation of the chain: clipping, weight decay and
    the constant scale keep an empty one; [scale_by_adam] keeps a count and
    the two moment trees, shaped like the filtered model;
    [scale_by_schedule] keeps a count ([opt_state[3].count] in [train]). *)
Record OptState : Type := mkOptState {
  adam_count : Array;
  mu : GPT;
  nu : GPT;
  schedule_count : Array;
}.

Definition opt_state_leaves (s : OptState) : list leaf :=
  LArray (adam_count s) :: gpt_leaves (mu s) ++ gpt_leaves (nu s)
    ++ [LArray (schedule_count s)].

Definition OptStateDef : Type := (GPTDef * GPTDef)%type.

Definition opt_state_structure (s : OptState) : OptStateDef :=
  (gpt_structure (mu s), gpt_structure (nu s)).

Definition opt_state_unflatten (d : OptStateDef) (ls : list leaf) : result OptState :=
  '(c1, r1) <- take_array ls ;;
  '(m, r2) <- gpt_fill (fst d) r1 ;;
  '(n, r3) <- gpt_fill (snd d) r2 ;;
  '(c2, r4) <- take_array r3 ;;
  match r4 with
  | [] => Ok (mkOptState c1 m n c2)
  | _ :: _ => Raise too_many
  end.

#[export] Instance OptState_PyTree : PyTree OptState := {|
  PyTreeDef := OptStateDef;
  tree_leaves := opt_state_leaves;
  tree_structure := opt_state_structure;
  tree_unflatten := opt_state_unflatten;
|}.

End OptimizerState.

Import OptimizerState.

(** ** The checkpoint manager *)

Module Orbax.

(** [ocp.CheckpointManagerOptions]: the two options [train] sets. *)
Record CheckpointManagerOptions : Type := mkOptions {
  max_to_keep : option nat;
  save_interval_steps : Z;
}.

(** What [train] saves under a step: the leaves of the model and the leaves
    of the optimizer state.  The serialization is outside this development:
    the store hands back the sequences it was given. *)
Definition Item : Type := (list leaf * list leaf)%type.

(** [ocp.CheckpointManager]: its options and the checkpoints in its
    directory, oldest first. *)
Record CheckpointManager : Type := mkManager {
  options : CheckpointManagerOptions;
  checkpoints : list (Z * Item);
}.

Definition all_steps (mngr : CheckpointManager) : list Z :=
  map fst (checkpoints mngr).

(** [mngr.latest_step()]: the greatest step saved, [None] without one. *)
Definition latest_step (mngr : CheckpointManager) : option Z :=
  match all_steps mngr with
  | [] => None
  | s :: rest => Some (fold_left Z.max rest s)
  end.

(** [mngr.should_save(step)]: the first checkpoint is always written; later
    ones only at a step past the latest that falls on the save interval. *)
Definition should_save (mngr : CheckpointManager) (step : Z) : bool :=
  match latest_step mngr with
  | None => true
  | Some last =>
      (last <? step)%Z && (step mod save_interval_steps (options mngr) =? 0)%Z
  end.

(** Removes the oldest checkpoints beyond [max_to_keep]. *)
Definition remove_old (keep : option nat) (cs : list (Z * Item)) : list (Z * Item) :=
  match keep with
  | None => cs
  | Some k => skipn (length cs - k) cs
  end.

(** [mngr.save(step, items)]: the manager afterwards, and whether the
    checkpoint was written. *)
Definition save (mngr : CheckpointManager) (step : Z) (items : Item)
  : CheckpointManager * bool :=
  if should_save mngr step
  then (mkManager (options mngr)
          (remove_old (max_to_keep (options mngr))
             (checkpoints mngr ++ [(step, items)])),
        true)
  else (mngr, false).

(** [mngr.restore(step)] *)
Definition restore (mngr : CheckpointManager) (step : Z) : result Item :=
  match find (fun c => (fst c =? step)%Z) (checkpoints mngr) with
  | Some c => Ok (snd c)
  | None => Raise (FileNotFoundError "no checkpoint for this step")
  end.

End Orbax.

Import Orbax.

(** ** The checkpoint code of [train] *)

Module Train.

(** The manager options [train] builds (lines 161-162). *)
Definition ckpt_options (eval_interval : Z) : CheckpointManagerOptions :=
  mkOptions (Some 1) eval_interval.

(** Lines 190-195 of [train]: from the manager and the freshly built model
    and optimizer state, the model, the optimizer state and the first step
    the loop starts with. *)
Definition restore_checkpoint (mngr : CheckpointManager)
  (model : GPT) (opt_state : OptState) : result (GPT * OptState * Z) :=
  let first_step := 0%Z in
  match latest_step mngr with
  | Some latest =>
      '(model_leaves, opt_state_leaves) <- restore mngr latest ;;
      model' <- tree_unflatten (tree_structure model) model_leaves ;;
      opt_state' <- tree_unflatten (tree_structure opt_state) opt_state_leaves ;;
      Ok (model', opt_state', (latest + 1)%Z)
  | None => Ok (model, opt_state, first_step)
  end.

(** Line 215: [mngr.save(itr, (jtu.tree_leaves(model),
    jtu.tree_leaves(opt_state)))], outside debug mode. *)
Definition save_checkpoint (debug : bool) (mngr : CheckpointManager) (itr : Z)
  (model : GPT) (opt_state : OptState) : CheckpointManager :=
  if debug then mngr
  else fst (save mngr itr (tree_leaves model, tree_leaves opt_state)).

(** [range(first_step, max_steps)], the steps the loop of [train] runs. *)
Definition range (first_step max_steps : Z) : list Z :=
  map (fun i => (first_step + Z.of_nat i)%Z)
    (seq 0 (Z.to_nat (max_steps - first_step))).

(** The steps a run of [train] goes through after start-up. *)
Definition train_steps (mngr : CheckpointManager) (max_steps : Z)
  (model : GPT) (opt_state : OptState) : result (list Z) :=
  '(_, _, first_step) <- restore_checkpoint mngr model opt_state ;;
  Ok (range first_step max_steps).

End Train.

Import Train.

(** ** Random keys and the batch sampler *)

Module Random.

(** A [jax.random] key, by the way it was derived: from a seed, or as the
    [i]-th of the [n] keys a split of another key gives. *)
Inductive KeyArray : Type :=
| PRNGKey (seed : Z)
| SplitKey (parent : KeyArray) (n i : nat).

(** [jrandom.split(key, n)] *)
Definition split (key : KeyArray) (n : nat) : list KeyArray :=
  map (SplitKey key n) (seq 0 n).

(** [key, key1 = jrandom.split(key)] *)
Definition split2 (key : KeyArray) : KeyArray * KeyArray :=
  (SplitKey key 2 0, SplitKey key 2 1).

(** The generator behind the module-level functions of [np.random]: one per
    process, shared by every caller.  Its state is seen as the sequence of
    raw draws it is going to give and the number already given. *)
Record RandomState : Type := mkRandomState {
  draws : nat -> Z;
  given : nat;
}.

(** [np.random.randint(low, high, size=(n,))]: [n] integers from
    [low, high), and the generator moved on by [n] draws. *)
Definition randint (low high : Z) (n : nat) (st : RandomState)
  : result (list Z * RandomState) :=
  if (high <=? low)%Z then Raise (ValueError "low >= high")
  else Ok (map (fun i => (low + draws st (given st + i) mod (high - low))%Z) (seq 0 n),
           mkRandomState (draws st) (given st + n)).

End Random.

Import Random.

Module Sampler.

(** [np.take(data, indices, axis=0)] along one row of indices. *)
Definition take (data : list Z) (indices : list Z) : result (list Z) :=
  mapM (fun i =>
          match (if (i <? 0)%Z then None else nth_error data (Z.to_nat i)) with
          | Some v => Ok v
          | None => Raise (IndexError "index out of bounds")
          end) indices.

(** [np.arange(start, stop)] *)
Definition arange (start stop : nat) : list Z :=
  map Z.of_nat (seq start (stop - start)).

(** [a.reshape(g, b, t)] of an array of rows of length [t]: the element
    counts must agree. *)
Fixpoint chunks {A : Type} (g b : nat) (rows : list A) : list (list A) :=
  match g with
  | 0 => []
  | S g' => firstn b rows :: chunks g' b (skipn b rows)
  end.

Definition reshape (g b t : nat) (rows : list (list Z)) : result (list (list (list Z))) :=
  if Nat.eqb (length rows * t) (g * b * t) then Ok (chunks g b rows)
  else Raise (ValueError "cannot reshape array").

(** What [get_batch] hands back: two arrays of shape (batch, block) when
    [g_accum_iters] is [None], of shape (g_accum_iters, batch, block)
    otherwise. *)
Inductive batch : Type :=
| Batch2 (x y : list (list Z))
| Batch3 (x y : list (list (list Z))).

(** [g_accum_iters or 1] *)
Definition or_1 (g_accum_iters : option nat) : nat :=
  match g_accum_iters with
  | None => 1
  | Some 0 => 1
  | Some g => g
  end.

(** [get_batch] of [src/src/train.py].  It draws from [np.random]: the
    generator state comes in and goes out. *)
Definition get_batch (data : list Z) (block_size batch_size : nat)
  (g_accum_iters : option nat) (st : RandomState) : result (batch * RandomState) :=
  let bs := batch_size * or_1 g_accum_iters in
  '(ix, st') <- randint 0 (Z.of_nat (length data) - Z.of_nat block_size) bs st ;;
  x <- mapM (fun i => take data (map (fun j => (j + i)%Z) (arange 0 block_size))) ix ;;
  y <- mapM (fun i => take data (map (fun j => (j + i)%Z) (arange 1 (block_size + 1)))) ix ;;
  match g_accum_iters with
  | Some g =>
      x3 <- reshape g batch_size block_size x ;;
      y3 <- reshape g batch_size block_size y ;;
      Ok (Batch3 x3 y3, st')
  | None => Ok (Batch2 x y, st')
  end.

(** The draws [evaluate] makes: 200 batches, one after the other. *)
Fixpoint evaluate_batches (n : nat) (data : list Z) (block_size batch_size : nat)
  (st : RandomState) : result RandomState :=
  match n with
  | 0 => Ok st
  | S n' =>
      '(_, st') <- get_batch data block_size batch_size None st ;;
      evaluate_batches n' data block_size batch_size st'
  end.

(** What one step of the loop of [train] consumes: the step number, the
    batch and the sub-key handed to [step]. *)
Record consumed : Type := mkConsumed {
  itr : Z;
  xy : batch;
  step_key : KeyArray;
}.

(** The loop of [train] (lines 199-213) as far as random input goes: the
    evaluation draws at the evaluation steps, then per step a split of the
    key and a batch. *)
Fixpoint train_loop (config : ExperimentConfig) (train_data val_data : list Z)
  (steps : list Z) (key : KeyArray) (st : RandomState) : result (list consumed) :=
  match steps with
  | [] => Ok []
  | itr :: rest =>
      let block := block_size (model_config config) in
      st1 <-
        (if debug config then Ok st
         else if (eval_interval config =? 0)%Z
         then Raise (ZeroDivisionError "integer modulo by zero")
         else if (itr mod eval_interval config =? 0)%Z
         then
           st0 <- evaluate_batches 200 train_data block (batch_size config) st ;;
           evaluate_batches 200 val_data block (batch_size config) st0
         else Ok st) ;;
      let '(key', key1) := split2 key in
      '(b, st2) <- get_batch train_data block (batch_size config)
                     (Some (g_accum_iters config)) st1 ;;
      more <- train_loop config train_data val_data rest key' st2 ;;
      Ok (mkConsumed itr b key1 :: more)
  end.

(** A fresh run of [train] (no checkpoint in the run directory, so the loop
    starts at step 0) from the seed (0 in line 181): line 185 splits the key
    once for the model. *)
Definition train_consumes (config : ExperimentConfig) (train_data val_data : list Z)
  (seed : Z) (st : RandomState) : result (list consumed) :=
  let key := PRNGKey seed in
  let '(key, _) := split2 key in
  train_loop config train_data val_data (range 0 (max_steps config)) key st.

(** The sub-keys the loop hands to [step] over [n] steps, from the key the
    loop starts with. *)
Fixpoint step_keys (n : nat) (key : KeyArray) : list KeyArray :=
  match n with
  | 0 => []
  | S n' => snd (split2 key) :: step_keys n' (fst (split2 key))
  end.

End Sampler.

Import Sampler.

(** ** The loss function *)

Module Loss.

(** Width in bits of the floating-point types. *)
Definition float_bits (d : DType) : nat :=
  match d with
  | bfloat16 => 16
  | float16 => 16
  | float32 => 32
  | float64 => 64
  | int32 => 0
  end.

(** The keys [loss_fn] hands to the model: one per row when it got a key. *)
Definition row_keys (x : list (list Z)) (key : option KeyArray) : option (list KeyArray) :=
  match key with
  | Some k => Some (split k (length x))
  | None => None
  end.

Section LossFn.

(** The numbers held by an array.  How they are rounded and added is left to
    the kernels below; the element type they are computed in is tracked. *)
Variable values : Type.

Record Tensor : Type := mkTensor {
  tdtype : DType;
  tvalues : values;
}.

(** Rounding from one element type to another. *)
Variable cast : DType -> DType -> values -> values.

(** The kernels of [optax.softmax_cross_entropy_with_integer_labels] and of
    [mean], each working in the element type it is told. *)
Variable softmax_cross_entropy_kernel : DType -> values -> list (list Z) -> values.
Variable mean_kernel : DType -> values -> values.

(** The model of [src/model.py], outside this development: combined from
    its two halves and called under [vmap] on the rows of a batch, it gives
    logits in its compute type. *)
Variable Params Static Model : Type.
Variable combine : Params -> Static -> Model.
Variable vmap_model : Model -> list (list Z) -> option (list KeyArray) -> Tensor.

(** [a.astype(dtype)] *)
Definition astype (a : Tensor) (d : DType) : Tensor :=
  mkTensor d (cast (tdtype a) d (tvalues a)).

(** [optax.softmax_cross_entropy_with_integer_labels(logits, labels)]: the
    losses come in the element type of the logits. *)
Definition softmax_cross_entropy_with_integer_labels
  (logits : Tensor) (labels : list (list Z)) : Tensor :=
  mkTensor (tdtype logits)
    (softmax_cross_entropy_kernel (tdtype logits) (tvalues logits) labels).

(** [a.mean()]: the mean comes in the element type of the array. *)
Definition mean (a : Tensor) : Tensor :=
  mkTensor (tdtype a) (mean_kernel (tdtype a) (tvalues a)).

(** The per-token losses of [loss_fn] (lines 68-69). *)
Definition token_losses (logits : Tensor) (y : list (list Z)) : Tensor :=
  softmax_cross_entropy_with_integer_labels (astype logits float32) y.

(** [loss_fn] of [make_training_fns]. *)
Definition loss_fn (model_params : Params) (model_static : Static)
  (x y : list (list Z)) (key : option KeyArray) : Tensor :=
  let model := combine model_params model_static in
  let key := row_keys x key in
  let logits := vmap_model model x key in
  let orig_dtype := tdtype logits in
  let loss := softmax_cross_entropy_with_integer_labels (astype logits float32) y in
  astype (mean loss) orig_dtype.

(** [loss_fn] of the single-device script, the root [train.py]: no cast. *)
Definition loss_fn_single (model : Model) (x y : list (list Z))
  (key : option KeyArray) : Tensor :=
  let key := row_keys x key in
  let logits := vmap_model model x key in
  let loss := softmax_cross_entropy_with_integer_labels logits y in
  mean loss.

End LossFn.

End Loss.

Import Loss.

(** ** The learning-rate schedule *)

Module Schedule.

Local Open Scope R_scope.

(** Learning rates are taken as real numbers: the schedules below are the
    functions optax computes in floating point. *)
Definition Schedule : Type := Z -> R.

(** [optax.linear_schedule(init_value, end_value, transition_steps)]: the
    polynomial schedule of power 1, constant at [init_value] when there are
    no transition steps. *)
Definition linear_schedule (init_value end_value : R) (transition_steps : Z)
  : Schedule :=
  fun count =>
    if (transition_steps <=? 0)%Z then init_value
    else
      let count := Z.min (Z.max count 0) transition_steps in
      let frac := 1 - IZR count / IZR transition_steps in
      (init_value - end_value) * frac ^ 1 + end_value.

(** [optax.cosine_decay_schedule(init_value, decay_steps, alpha)] *)
Definition cosine_decay_schedule (init_value : R) (decay_steps : Z) (alpha : R)
  : result Schedule :=
  if (decay_steps <=? 0)%Z
  then Raise (ValueError "The cosine_decay_schedule requires positive decay_steps!")
  else
    Ok (fun count =>
          let count := Z.min count decay_steps in
          let cosine_decay := / 2 * (1 + cos (PI * IZR count / IZR decay_steps)) in
          let decayed := (1 - alpha) * cosine_decay + alpha in
          init_value * decayed).

(** [optax.join_schedules([first, second], [boundary])] *)
Definition join_schedules (first second : Schedule) (boundary : Z) : Schedule :=
  fun step => if (step <? boundary)%Z then first step else second (step - boundary)%Z.

(** [optax.warmup_cosine_decay_schedule(init_value, peak_value,
    warmup_steps, decay_steps, end_value)].  [decay_steps] counts from step
    0: the cosine part runs over [decay_steps - warmup_steps] steps. *)
Definition warmup_cosine_decay_schedule (init_value peak_value : R)
  (warmup_steps decay_steps : Z) (end_value : R) : result Schedule :=
  cosine <- cosine_decay_schedule peak_value (decay_steps - warmup_steps)
              (end_value / peak_value) ;;
  Ok (join_schedules (linear_schedule init_value peak_value warmup_steps)
        cosine warmup_steps).

(** The scheduler [train] builds (lines 169-171). *)
Definition scheduler (config : ExperimentConfig) : result Schedule :=
  warmup_cosine_decay_schedule 0 (learning_rate config) (warmup_steps config)
    (lr_decay_steps config) (min_lr config).

(** The schedule of [train], written out: [peak] is reached after [warmup]
    steps, [floor] from step [decay] on. *)
Definition lr (peak floor : R) (warmup decay : Z) (step : Z) : R :=
  if (step <? warmup)%Z
  then peak * (IZR (Z.max step 0) / IZR warmup)
  else
    peak * ((1 - floor / peak)
            * (/ 2 * (1 + cos (PI * IZR (Z.min (step - warmup) (decay - warmup))
                               / IZR (decay - warmup))))
            + floor / peak).

End Schedule.

Import Schedule.

(** ** The optimizer *)

Module Optax.

Local Open Scope R_scope.

Section Transformations.

(** Gradients, updates, parameters and moments are trees of one shape.  A
    tree is given by the number at each of its positions; [positions] lists
    them, every element of every leaf, once. *)
Variable position : Type.
Variable positions : list position.

Definition Tree : Type := position -> R.

Definition Updates : Type := Tree.
Definition Params : Type := Tree.

(** [optax.GradientTransformation]: an [init] and an [update] over a state. *)
Record GradientTransformation (State : Type) : Type := mkTransformation {
  init : Params -> State;
  update : Updates -> State -> Params -> Updates * State;
}.

Inductive EmptyState : Type := mkEmptyState.

Record ScaleByAdamState : Type := mkScaleByAdamState {
  adam_count : Z;
  adam_mu : Tree;
  adam_nu : Tree;
}.

Record ScaleByScheduleState : Type := mkScaleByScheduleState {
  count : Z;
}.

Definition tree_map (f : R -> R) (t : Tree) : Tree := fun i => f (t i).

Definition tree_map2 (f : R -> R -> R) (t u : Tree) : Tree := fun i => f (t i) (u i).

Definition zeros_like (_ : Tree) : Tree := fun _ => 0.

(** [optax.global_norm]: the square root of the sum of all squares. *)
Definition global_norm (updates : Updates) : R :=
  sqrt (fold_right Rplus 0 (map (fun i => updates i * updates i) positions)).

(** [jnp.where(c, a, b)] on a comparison of two numbers. *)
Definition select_lt (x y a b : R) : R := if Rlt_dec x y then a else b.

(** [optax.clip_by_global_norm(max_norm)] *)
Definition clip_by_global_norm (max_norm : R) : GradientTransformation EmptyState :=
  mkTransformation
    (fun _ => mkEmptyState)
    (fun updates state _ =>
       let g_norm := global_norm updates in
       (tree_map (fun t => select_lt g_norm max_norm t ((t / g_norm) * max_norm)) updates,
        state)).

(** [numerics.safe_int32_increment]: the count stops at the largest int32. *)
Definition max_int32 : Z := 2147483647.

Definition safe_int32_increment (count : Z) : Z :=
  if (count <? max_int32)%Z then (count + 1)%Z else max_int32.

(** [update_moment(updates, moments, decay, order)] *)
Definition update_moment (updates moments : Tree) (decay : R) (order : nat) : Tree :=
  tree_map2 (fun g t => (1 - decay) * g ^ order + decay * t) updates moments.

(** [bias_correction(moment, decay, count)] *)
Definition bias_correction (moment : Tree) (decay : R) (count : Z) : Tree :=
  let bias_correction_ := 1 - decay ^ Z.to_nat count in
  tree_map (fun t => t / bias_correction_) moment.

(** [optax.scale_by_adam(b1, b2, eps, eps_root)] *)
Definition scale_by_adam (b1 b2 eps eps_root : R) : GradientTransformation ScaleByAdamState :=
  mkTransformation
    (fun params => mkScaleByAdamState 0 (zeros_like params) (zeros_like params))
    (fun updates state _ =>
       let mu := update_moment updates (adam_mu state) b1 1 in
       let nu := update_moment updates (adam_nu state) b2 2 in
       let count_inc := safe_int32_increment (adam_count state) in
       let mu_hat := bias_correction mu b1 count_inc in
       let nu_hat := bias_correction nu b2 count_inc in
       (tree_map2 (fun m v => m / (sqrt (v + eps_root) + eps)) mu_hat nu_hat,
        mkScaleByAdamState count_inc mu nu)).

(** [optax.add_decayed_weights(weight_decay)] *)
Definition add_decayed_weights (weight_decay : R) : GradientTransformation EmptyState :=
  mkTransformation
    (fun _ => mkEmptyState)
    (fun updates state params =>
       (tree_map2 (fun g p => g + weight_decay * p) updates params, state)).

(** [optax.scale_by_schedule(step_size_fn)] *)
Definition scale_by_schedule (step_size_fn : Schedule)
  : GradientTransformation ScaleByScheduleState :=
  mkTransformation
    (fun _ => mkScaleByScheduleState 0)
    (fun updates state _ =>
       let step_size := step_size_fn (count state) in
       (tree_map (fun g => step_size * g) updates,
        mkScaleByScheduleState (safe_int32_increment (count state)))).

(** [optax.scale(step_size)] *)
Definition scale (step_size : R) : GradientTransformation EmptyState :=
  mkTransformation
    (fun _ => mkEmptyState)
    (fun updates state _ => (tree_map (fun g => step_size * g) updates, state)).

(** [optax.chain] of two transformations: the second works on the updates
    of the first; the state is the pair of the two.  A longer chain is the
    chain of its head with the chain of its tail. *)
Definition chain {S1 S2 : Type}
  (t1 : GradientTransformation S1) (t2 : GradientTransformation S2)
  : GradientTransformation (S1 * S2) :=
  mkTransformation
    (fun params => (init t1 params, init t2 params))
    (fun updates state params =>
       let '(updates1, s1) := update t1 updates (fst state) params in
       let '(updates2, s2) := update t2 updates1 (snd state) params in
       (updates2, (s1, s2))).

(** The defaults of [scale_by_adam] that [train] leaves alone. *)
Definition adam_b1 : R := 9 / 10.
Definition adam_eps : R := 1 / 100000000.
Definition adam_eps_root : R := 0.

(** The state of the chain of [train]. *)
Definition ChainState : Type :=
  (EmptyState * (ScaleByAdamState * (EmptyState * (ScaleByScheduleState * EmptyState))))%type.

(** [opt_state[1]] and [opt_state[3]]: the states of Adam and of the
    schedule within the state of the chain. *)
Definition adam_state (s : ChainState) : ScaleByAdamState := fst (snd s).
Definition schedule_state (s : ChainState) : ScaleByScheduleState :=
  fst (snd (snd (snd s))).

(** The optimizer [train] builds (lines 172-178). *)
Definition optimizer (config : ExperimentConfig) (scheduler : Schedule)
  : GradientTransformation ChainState :=
  chain (clip_by_global_norm 1)
    (chain (scale_by_adam adam_b1 (beta2 config) adam_eps adam_eps_root)
       (chain (add_decayed_weights (weight_decay config))
          (chain (scale_by_schedule scheduler)
             (scale (-1))))).

(** The optimizer of the single-device script, the root [train.py] (lines
    102-107): the same chain without the clipping. *)
Definition optimizer_single (config : ExperimentConfig) (scheduler : Schedule)
  : GradientTransformation
      (ScaleByAdamState * (EmptyState * (ScaleByScheduleState * EmptyState))) :=
  chain (scale_by_adam adam_b1 (beta2 config) adam_eps adam_eps_root)
    (chain (add_decayed_weights (weight_decay config))
       (chain (scale_by_schedule scheduler)
          (scale (-1)))).

(** The gradient after clipping its global norm to 1. *)
Definition clipped (grad : Tree) : Tree :=
  fun i =>
    if Rlt_dec (global_norm grad) 1 then grad i
    else grad i / global_norm grad * 1.

(** The two moments of Adam after one more gradient [g]. *)
Definition first_moment (g mu : Tree) : Tree :=
  fun i => (1 - 9 / 10) * g i + 9 / 10 * mu i.

Definition second_moment (b2 : R) (g nu : Tree) : Tree :=
  fun i => (1 - b2) * (g i * g i) + b2 * nu i.

(** The Adam direction from the moments at count [t]. *)
Definition adam_direction (b2 : R) (t : Z) (m v : Tree) : Tree :=
  fun i =>
    (m i / (1 - (9 / 10) ^ Z.to_nat t))
    / (sqrt (v i / (1 - b2 ^ Z.to_nat t) + 0) + 1 / 100000000).

End Transformations.

End Optax.

(** ** Gradient accumulation in the training step *)

Module Step.

Local Open Scope R_scope.

Section Accumulation.

(** Loss and gradient are taken in exact arithmetic: the casts of the
    precision policy are the identity there.  The model and automatic
    differentiation are outside this development: the per-token losses of a
    row, and the gradient of a function of the parameters, are left open. *)
Variable Params Static : Type.
Variable position : Type.

Definition Grad : Type := Optax.Tree position.

(** The cross-entropy losses of one row under the combined model, one per
    token: [softmax_cross_entropy_with_integer_labels(model(x, key), y)]. *)
Variable row_losses : Params -> Static -> list Z -> list Z -> option KeyArray -> list R.

(** The gradient part of [jax.value_and_grad]. *)
Variable grad : (Params -> R) -> Params -> Grad.

Definition sum (l : list R) : R := fold_right Rplus 0 l.

(** [a.mean()] over all the elements of [a]. *)
Definition mean (l : list R) : R := sum l / INR (length l).

(** The keys [vmap] hands to the rows: the split of the key, or no key. *)
Definition row_keys (n : nat) (key : option KeyArray) : list (option KeyArray) :=
  match key with
  | Some k => map Some (split k n)
  | None => repeat None n
  end.

(** [loss_fn] of [make_training_fns], in exact arithmetic. *)
Definition loss_fn (model_params : Params) (model_static : Static)
  (x y : list (list Z)) (key : option KeyArray) : R :=
  let key := row_keys (length x) key in
  let loss :=
    flat_map (fun '(xr, yr, k) => row_losses model_params model_static xr yr k)
      (combine (combine x y) key) in
  mean loss.

(** [jax.value_and_grad(loss_fn)(model_params, model_static, x, y, key)] *)
Definition value_and_grad_loss_fn (model_params : Params) (model_static : Static)
  (x y : list (list Z)) (key : option KeyArray) : R * Grad :=
  (loss_fn model_params model_static x y key,
   grad (fun p => loss_fn p model_static x y key) model_params).

(** The body of the scan (lines 78-83). *)
Definition accum_loss_grad (model_params : Params) (model_static : Static)
  (loss_and_grad : R * Grad) (xykey_g : list (list Z) * list (list Z) * KeyArray)
  : R * Grad :=
  let '(loss_so_far, grad_so_far) := loss_and_grad in
  let '(x_g, y_g, key_g) := xykey_g in
  let '(loss_g, grad_g) :=
    value_and_grad_loss_fn model_params model_static x_g y_g (Some key_g) in
  (loss_so_far + loss_g, Optax.tree_map2 (fun x y => x + y) grad_g grad_so_far).

(** [jax.lax.scan(f, init, (x, y, keys))], the carry only: the three arrays
    must agree in their leading dimension. *)
Definition scan (f : R * Grad -> list (list Z) * list (list Z) * KeyArray -> R * Grad)
  (init : R * Grad) (x y : list (list (list Z))) (keys : list KeyArray)
  : result (R * Grad) :=
  if Nat.eqb (length x) (length y) && Nat.eqb (length x) (length keys)
  then Ok (fold_left f (combine (combine x y) keys) init)
  else Raise (ValueError "scan got values with different leading axis sizes").

(** Lines 74-88 of [step]: the loss and the gradient the optimizer is handed,
    before the cast back to the parameter type. *)
Definition accumulate (G : nat) (model_params : Params) (model_static : Static)
  (x y : list (list (list Z))) (key : KeyArray) : result (R * Grad) :=
  let all_keys := split key G in
  let init_loss_grad : R * Grad := (0, fun _ => 0) in
  '(loss, grad) <-
    scan (accum_loss_grad model_params model_static) init_loss_grad x y all_keys ;;
  Ok (loss / INR G, Optax.tree_map (fun x => x / INR G) grad).

(** [x.reshape(G * B, T)]: the microbatches put one after the other. *)
Definition full_batch (x : list (list (list Z))) : list (list Z) := concat x.

(** An array of shape (B, T), and one of shape (G, B, T). *)
Definition shape2 (B T : nat) (a : list (list Z)) : Prop :=
  length a = B /\ Forall (fun row => length row = T) a.

Definition shape3 (G B T : nat) (a : list (list (list Z))) : Prop :=
  length a = G /\ Forall (shape2 B T) a.

(** The token losses of a batch, row after row. *)
Definition batch_losses (p : Params) (s : Static) (x y : list (list Z)) : list R :=
  flat_map (fun '(xr, yr) => row_losses p s xr yr None) (combine x y).

End Accumulation.

End Step.

(** ** More of the sampler: windows of the data and the evaluator *)

Module Evaluator.

Local Open Scope R_scope.

(** [data[i : i + n]] *)
Definition window (data : list Z) (i n : nat) : list Z := firstn n (skipn i data).

(** The generator after [n] more draws. *)
Definition advance (st : RandomState) (n : nat) : RandomState :=
  mkRandomState (draws st) (given st + n).

(** The loop of [evaluate] (lines 105-110): a batch, its loss, the running
    total.  The loss of a batch under the model being evaluated,
    [simple_loss(model, x, y, None)], is left open. *)
Fixpoint evaluate_loop (n : nat) (simple_loss : batch -> R) (data : list Z)
  (block_size batch_size : nat) (st : RandomState) (tot_loss : R)
  : result (R * RandomState) :=
  match n with
  | 0 => Ok (tot_loss, st)
  | S n' =>
      '(xy, st') <- get_batch data block_size batch_size None st ;;
      evaluate_loop n' simple_loss data block_size batch_size st'
        (tot_loss + simple_loss xy)
  end.

(** [evaluate] of [make_training_fns]: the mean loss over 200 batches, and
    the generator of [np.random] afterwards. *)
Definition evaluate (simple_loss : batch -> R) (data : list Z)
  (block_size batch_size : nat) (st : RandomState) : result (R * RandomState) :=
  '(tot_loss, st') <- evaluate_loop 200 simple_loss data block_size batch_size st 0 ;;
  Ok (tot_loss / 200, st').

End Evaluator.

Import Evaluator.

(** ** Where the random keys go *)

Module Keys.

(** The number of splits behind a key. *)
Fixpoint depth (k : KeyArray) : nat :=
  match k with
  | PRNGKey _ => 0
  | SplitKey p _ _ => S (depth p)
  end.

(** A key and the keys it was split from, up to the seed. *)
Fixpoint above (k : KeyArray) : list KeyArray :=
  k :: match k with
       | PRNGKey _ => []
       | SplitKey p _ _ => above p
       end.

(** [x] is [r], or was split from [r] in one or more splits. *)
Definition derived_from (r x : KeyArray) : Prop := In r (above x).

(** The keys the rows of one [step] get: [step] splits its key into one key
    per microbatch (line 84), [loss_fn] splits each of these into one key
    per row (line 65), and [vmap] hands every row its own. *)
Definition row_keys_of_step (G B : nat) (key : KeyArray) : list KeyArray :=
  flat_map (fun key_g => split key_g B) (split key G).

(** All the keys the rows of the first [n] steps of [train] get. *)
Definition train_row_keys (G B n : nat) (key : KeyArray) : list KeyArray :=
  flat_map (row_keys_of_step G B) (step_keys n key).

(** A run of [train] as far as random input goes, start-up included: line
    181 makes the key from the seed, line 185 splits it once for the model,
    lines 190-195 take the first step from the checkpoint manager (0
    without a checkpoint, the latest step plus one with one), and the loop
    runs over [range(first_step, max_steps)].  The key is not part of a
    checkpoint: the loop of a resumed run starts from the same key as the
    loop of a fresh one. *)
Definition train_run (config : ExperimentConfig) (mngr : CheckpointManager)
  (model : GPT) (opt_state : OptState) (train_data val_data : list Z)
  (seed : Z) (st : RandomState) : result (list consumed) :=
  let key := PRNGKey seed in
  let '(key, _) := split2 key in
  '(_, _, first_step) <- restore_checkpoint mngr model opt_state ;;
  train_loop config train_data val_data (range first_step (max_steps config)) key st.

(** [key, key1, key2 = jrandom.split(key, 3)] *)
Definition split3 (key : KeyArray) : KeyArray * KeyArray * KeyArray :=
  (SplitKey key 3 0, SplitKey key 3 1, SplitKey key 3 2).

(** The loop of [main] in the single-device script (the root [train.py],
    lines 110-118), as far as keys go.  At an evaluation step the key is
    split in three and each of the two evaluations splits its key into 200,
    one per batch it samples; then the key is split in three again, one key
    samples the training batch and [loss_fn] splits the other into one key
    per row.  The result lists the keys that reach a sampler or the model,
    in order. *)
Fixpoint main_keys (eval_interval : Z) (batch_size : nat) (steps : list Z)
  (key : KeyArray) : result (list KeyArray) :=
  match steps with
  | [] => Ok []
  | i :: rest =>
      if (eval_interval =? 0)%Z
      then Raise (ZeroDivisionError "integer modulo by zero")
      else
        let '(key, eval_keys) :=
          if (i mod eval_interval =? 0)%Z
          then
            let '(key', key1, key2) := split3 key in
            (key', split key1 200 ++ split key2 200)
          else (key, []) in
        let '(key', key1, key2) := split3 key in
        more <- main_keys eval_interval batch_size rest key' ;;
        Ok (eval_keys ++ key1 :: split key2 batch_size ++ more)
  end.

End Keys.

Import Keys.

(** ** More views of the model tree *)

Module TreeViews.

(** What a leaf holds, its placement apart. *)
Definition leaf_values (l : leaf) : (DType * list nat * list Z) + PyObject :=
  match l with
  | LArray a => inl (dtype a, shape a, bits a)
  | LObject o => inr o
  end.

(** The number of leaves a structure asks for. *)
Fixpoint num_leaves (d : GPTDef) : nat :=
  match d with
  | DLinear hb => if hb then 2 else 1
  | DEmbedding => 1
  | DLayerNorm hb => if hb then 2 else 1
  | DLeaf => 1
  | DNone => 0
  | DModule _ ds => list_sum (map num_leaves ds)
  end.

(** An array under the placement [shard_gpt] gives in the mode at hand: on
    the mesh, split along the ['data'] axis in the sharded mode, split along
    no axis in the replicated mode. *)
Definition placed_as (mesh : Mesh) (shard_model : bool) (l : leaf) : Prop :=
  match l with
  | LArray a =>
      exists s : NamedSharding,
        sharding a = Some s /\
        Jax.mesh s = mesh /\
        if shard_model
        then In (Some "data"%string) (spec s)
        else Forall (fun axis => axis = None) (spec s)
  | LObject _ => True
  end.

End TreeViews.

Import TreeViews.

(** ** Runs of saves *)

Module CheckpointRuns.

(** The saves of the loop of [train] over a list of steps, outside debug
    mode: at every step [itr] the loop calls [mngr.save(itr, ...)] on what
    the step left (line 215); [items] gives the leaves saved at each step. *)
Definition run_saves (mngr : CheckpointManager) (items : Z -> Item) (steps : list Z)
  : CheckpointManager :=
  fold_left (fun m itr => fst (save m itr (items itr))) steps mngr.

End CheckpointRuns.

Import CheckpointRuns.

(** ** The optimizer over the steps of a run *)

Module Training.

Local Open Scope R_scope.

Section Updates.

Variable position : Type.
Variable positions : list position.

(** [eqx.apply_updates(model, updates)]: the sum, leaf by leaf. *)
Definition apply_updates (model updates : Optax.Tree position) : Optax.Tree position :=
  fun i => model i + updates i.

(** Lines 91-92 of [step]: the optimizer turns the gradient into updates,
    and the updates are added to the model. *)
Definition optimizer_step (config : ExperimentConfig) (sched : Schedule)
  (grad : Optax.Tree position)
  (state_model : Optax.ChainState position * Optax.Tree position)
  : Optax.ChainState position * Optax.Tree position :=
  let '(opt_state, model) := state_model in
  let '(updates, opt_state') :=
    Optax.update (Optax.optimizer positions config sched) grad opt_state model in
  (opt_state', apply_updates model updates).

(** The first [n] steps of a run: [grad_at k model] is the gradient step
    [k] computes for the model it is given. *)
Fixpoint optimizer_steps (config : ExperimentConfig) (sched : Schedule)
  (grad_at : nat -> Optax.Tree position -> Optax.Tree position) (n : nat)
  (start : Optax.ChainState position * Optax.Tree position)
  : Optax.ChainState position * Optax.Tree position :=
  match n with
  | 0 => start
  | S n' =>
      let before := optimizer_steps config sched grad_at n' start in
      optimizer_step config sched (grad_at n' (snd before)) before
  end.

(** Line 189: [optimizer.init] on the parameters of the model. *)
Definition optimizer_init (config : ExperimentConfig) (sched : Schedule)
  (model : Optax.Tree position) : Optax.ChainState position :=
  Optax.init (Optax.optimizer positions config sched) model.

End Updates.

End Training.

(** ** Concrete models, managers and configurations *)

Module Examples.

Definition mesh8 : Mesh := mkMesh [0; 1; 2; 3; 4; 5; 6; 7] ["data"%string].

Definition ones (n : nat) : Array :=
  mkArray float32 [n] (repeat 1065353216%Z n) None.

(** A block with a biased projection: weight [2], bias [2], and a scale. *)
Definition biased_block : GPT :=
  EqxModule "Block" [LayerNorm (ones 2) None; Linear (ones 2) (Some (ones 2))].

(** Two runs of the loop body around one checkpoint: the manager of a run
    with [eval_interval = 1000] after step 0, the model and optimizer state
    saved then, and the ones step 1 ends with. *)
Definition scale_only (v : Z) : GPT :=
  EqxModule "GPT" [LayerNorm (mkArray float32 [1] [v] None) None].

Definition opt_at (count : Z) (m v : Z) : OptState :=
  mkOptState (mkArray int32 [] [count] None) (scale_only m) (scale_only v)
    (mkArray int32 [] [count] None).

Definition mngr_fresh : CheckpointManager := mkManager (ckpt_options 1000) [].

Definition mngr_after_step0 : CheckpointManager :=
  save_checkpoint false mngr_fresh 0 (scale_only 10) (opt_at 1 1 1).

(** A small run: ten tokens, windows of two, two microbatches of two rows,
    two steps, evaluation at step 0. *)
Definition tiny_model_config : GPTConfig := mkGPTConfig 2 16 1 1 4 0%R.

Definition tiny_config : ExperimentConfig :=
  mkExperimentConfig "" "" (1 / 1000)%R 2 1 (1 / 10000)%R 10 2 (95 / 100)%R
    (1 / 10)%R 1000 "params=float32,compute=bfloat16,output=bfloat16" 2 false
    tiny_model_config false.

Definition tiny_train : list Z := [10; 11; 12; 13; 14; 15; 16; 17; 18; 19]%Z.
Definition tiny_val : list Z := [20; 21; 22; 23; 24; 25; 26; 27; 28; 29]%Z.

(** Two states the generator of [np.random] may be in when [train] starts:
    nothing in the script sets it. *)
Definition np_state_a : RandomState := mkRandomState (fun i => Z.of_nat i) 0.
Definition np_state_b : RandomState := mkRandomState (fun i => Z.of_nat (3 * i)) 0.

(** The numbers of [configs/openwebtext.py]. *)
Definition openwebtext_model_config : GPTConfig :=
  mkGPTConfig 1024 50304 12 12 768 0%R.

Definition openwebtext_config : ExperimentConfig :=
  mkExperimentConfig "" "/mnt/disks/persist/openwebtext" (6 / 10000)%R 120 5000
    (1 / 100000)%R 600000 600000 (95 / 100)%R (6 / 100000)%R 1000
    "params=float32,compute=bfloat16,output=bfloat16" 4 false
    openwebtext_model_config false.

(** A model of one parameter [p] whose loss at a token [t] is [p * t], and
    the gradient of a function linear in [p]: its slope. *)
Definition toy_row_losses (p : R) (_ : unit) (xr _ : list Z) (_ : option KeyArray)
  : list R :=
  map (fun t => (p * IZR t)%R) xr.

Definition toy_grad (f : R -> R) (_ : R) : Step.Grad unit :=
  fun _ => (f 1 - f 0)%R.

Definition toy_x : list (list (list Z)) := [[[1; 2]]; [[3; 4]]]%Z.
Definition toy_y : list (list (list Z)) := [[[2; 3]]; [[4; 5]]]%Z.

(** The same model with dropout on its output, in the smallest form: the
    mask of a row is read off the key [vmap] hands it.  Inverted dropout at
    rate 1/2: under the key of an even place of a split the row is kept and
    scaled by 2, under the key of an odd place it is dropped; without a key
    there is no mask. *)
Definition dropout_mask (key : option KeyArray) : R :=
  match key with
  | Some (SplitKey _ _ i) => if Nat.even i then 2%R else 0%R
  | _ => 1%R
  end.

Definition dropout_row_losses (p : R) (_ : unit) (xr _ : list Z)
  (key : option KeyArray) : list R :=
  map (fun t => (p * IZR t * dropout_mask key)%R) xr.

(** Configurations [train] accepts as they are: one without warmup, one
    whose decay ends with the warmup, one whose minimum lies above the
    peak. *)
Definition no_warmup_config : ExperimentConfig :=
  mkExperimentConfig "" "" (1 / 1000)%R 2 0 (1 / 10000)%R 10 2 (95 / 100)%R
    (1 / 10)%R 1000 "params=float32,compute=bfloat16,output=bfloat16" 2 false
    tiny_model_config false.

Definition late_warmup_config : ExperimentConfig :=
  mkExperimentConfig "" "" (1 / 1000)%R 2 10 (1 / 10000)%R 10 2 (95 / 100)%R
    (1 / 10)%R 1000 "params=float32,compute=bfloat16,output=bfloat16" 2 false
    tiny_model_config false.

Definition rising_config : ExperimentConfig :=
  mkExperimentConfig "" "" (1 / 1000)%R 2 1 (2 / 1000)%R 2 2 (95 / 100)%R
    (1 / 10)%R 1000 "params=float32,compute=bfloat16,output=bfloat16" 2 false
    tiny_model_config false.

End Examples.

Import Examples.

(* ================================================================== *)
(** * Part II: properties                                              *)
(* ================================================================== *)

Unset Implicit Arguments.

(** ** The error monad *)

Lemma bind_ok {A B : Type} (a : A) (k : A -> result B) : bind (Ok a) k = k a.
Proof. reflexivity. Qed.

Lemma bind_raise {A B : Type} (e : exn) (k : A -> result B) :
  bind (Raise e) k = Raise e.
Proof. reflexivity. Qed.

Lemma mapM_app {A B : Type} (f : A -> result B) (xs ys : list A) (xs' ys' : list B) :
  mapM f xs = Ok xs' -> mapM f ys = Ok ys' -> mapM f (xs ++ ys) = Ok (xs' ++ ys').
Proof.
  revert xs'. induction xs as [|x xs IH]; intros xs' Hx Hy; simpl in *.
  - injection Hx as <-. exact Hy.
  - destruct (f x) as [y|e]; simpl in *; [|discriminate].
    destruct (mapM f xs) as [zs|e]; simpl in *; [|discriminate].
    injection Hx as <-. rewrite (IH zs eq_refl Hy). reflexivity.
Qed.

(** ** Induction over model trees *)

Lemma GPT_tree_ind (Q : GPT -> Prop) :
  (forall w b, Q (Linear w b)) ->
  (forall w, Q (Embedding w)) ->
  (forall w b, Q (LayerNorm w b)) ->
  (forall x, Q (ArrayLeaf x)) ->
  (forall o, Q (ObjLeaf o)) ->
  Q NoneNode ->
  (forall n fs, Forall Q fs -> Q (EqxModule n fs)) ->
  forall m, Q m.
Proof.
  intros H_linear H_embedding H_layernorm H_array H_obj H_none H_module.
  fix IH 1. intros [w b|w|w b|x|o| |n fs].
  - apply H_linear.
  - apply H_embedding.
  - apply H_layernorm.
  - apply H_array.
  - apply H_obj.
  - apply H_none.
  - apply H_module. induction fs as [|f fs IHfs]; constructor.
    + apply IH.
    + exact IHfs.
Qed.

(** ** The sharding manager *)

Lemma isinstance_module n fs cs : isinstance (EqxModule n fs) cs = false.
Proof. reflexivity. Qed.

Lemma isinstance_map_own_weight f m cs :
  isinstance (map_own_weight f m) cs = isinstance m cs.
Proof. destruct m; reflexivity. Qed.

Lemma map_wts_unfold cs f m :
  map_wts cs f m =
  if isinstance m cs then map_own_weight f m
  else match m with
       | EqxModule n fs => EqxModule n (map (map_wts cs f) fs)
       | _ => m
       end.
Proof. destruct m; reflexivity. Qed.

Lemma layer_wts_unfold cs m :
  layer_wts cs m =
  if isinstance m cs then own_weight m
  else match m with
       | EqxModule _ fs => flat_map (layer_wts cs) fs
       | _ => []
       end.
Proof. destruct m; reflexivity. Qed.

Lemma isinstance_map_wts cs' f m cs :
  isinstance (map_wts cs' f m) cs = isinstance m cs.
Proof.
  rewrite map_wts_unfold. destruct (isinstance m cs').
  - apply isinstance_map_own_weight.
  - destruct m; reflexivity.
Qed.

(** A layer of one of the linear classes is no LayerNorm, and conversely. *)
Lemma lin_ln_disjoint m :
  isinstance m lin_cls = true -> isinstance m ln_cls = false.
Proof. destruct m; cbv; congruence. Qed.

Lemma mapM_weight_own m cs :
  isinstance m cs = true -> mapM weight [m] = Ok (own_weight m).
Proof. destruct m; simpl; try reflexivity; discriminate. Qed.

Lemma leaves_is_leaf_unfold is_leaf m :
  tree_leaves_is_leaf is_leaf m =
  if is_leaf m then [m]
  else match m with
       | Linear w b => ArrayLeaf w :: opt_nodes b
       | Embedding w => [ArrayLeaf w]
       | LayerNorm w b => ArrayLeaf w :: opt_nodes b
       | ArrayLeaf x => [ArrayLeaf x]
       | ObjLeaf o => [ObjLeaf o]
       | NoneNode => []
       | EqxModule _ fs => flat_map (tree_leaves_is_leaf is_leaf) fs
       end.
Proof. destruct m; reflexivity. Qed.

Lemma get_layers_wts cs m :
  mapM weight (get_layers m cs) = Ok (layer_wts cs m).
Proof.
  unfold get_layers.
  induction m as [w b|w|w b|x|o| |n fs IH] using GPT_tree_ind;
    rewrite leaves_is_leaf_unfold, layer_wts_unfold.
  1-6: match goal with
       | |- context [isinstance ?m ?c] =>
           destruct (isinstance m c) eqn:E;
           [ cbn [filter]; rewrite E; apply (mapM_weight_own _ _ E)
           | try destruct b; reflexivity ]
       end.
  rewrite isinstance_module.
  induction IH as [|f fs Hf _ IHfs]; simpl.
  - reflexivity.
  - rewrite filter_app. apply mapM_app; assumption.
Qed.

Lemma get_wts_ok cs m : get_wts cs m = Ok (layer_wts cs m).
Proof. apply get_layers_wts. Qed.

Lemma replace_wts_unfold cs m replace :
  replace_wts cs m replace =
  if isinstance m cs then
    match replace with
    | w :: rest => (set_weight m w, rest)
    | [] => (m, [])
    end
  else
    match m with
    | EqxModule n fs =>
        let '(fs', rest) := replace_fields cs fs replace in (EqxModule n fs', rest)
    | _ => (m, replace)
    end.
Proof. destruct m; reflexivity. Qed.

Lemma set_weight_own f m cs rest :
  isinstance m cs = true ->
  match map f (own_weight m) ++ rest with
  | w :: rest' => (set_weight m w, rest')
  | [] => (m, [])
  end = (map_own_weight f m, rest).
Proof. destruct m; simpl; try reflexivity; discriminate. Qed.

(** Putting back the selected weights, each changed by [f], changes exactly
    these weights and uses up exactly these replacements. *)
Lemma replace_wts_map cs f m rest :
  replace_wts cs m (map f (layer_wts cs m) ++ rest) = (map_wts cs f m, rest).
Proof.
  revert rest.
  induction m as [w b|w|w b|x|o| |n fs IH] using GPT_tree_ind; intros rest;
    rewrite replace_wts_unfold, layer_wts_unfold, map_wts_unfold.
  1-6: match goal with
       | |- context [isinstance ?m ?c] =>
           destruct (isinstance m c) eqn:E;
           [ apply (set_weight_own f _ _ rest E) | reflexivity ]
       end.
  rewrite isinstance_module.
  assert (Hfs : replace_fields cs fs (map f (flat_map (layer_wts cs) fs) ++ rest)
                = (map (map_wts cs f) fs, rest)).
  { induction IH as [|g gs Hg _ IHgs]; simpl.
    - reflexivity.
    - rewrite map_app, <- app_assoc, Hg, IHgs. reflexivity. }
  rewrite Hfs. reflexivity.
Qed.

Lemma tree_at_map cs f m :
  tree_at cs m (map f (layer_wts cs m)) = Ok (map_wts cs f m).
Proof.
  unfold tree_at. rewrite get_wts_ok. simpl.
  rewrite length_map, Nat.eqb_refl.
  rewrite <- (app_nil_r (map f (layer_wts cs m))), replace_wts_map.
  reflexivity.
Qed.

(** Changing weights moves no layer: the layers of any classes are found in
    the same number afterwards. *)
Lemma length_layer_wts_map cs cs' f m :
  length (layer_wts cs (map_wts cs' f m)) = length (layer_wts cs m).
Proof.
  induction m as [w b|w|w b|x|o| |n fs IH] using GPT_tree_ind;
    rewrite (layer_wts_unfold cs (map_wts _ _ _)), isinstance_map_wts,
      (layer_wts_unfold cs), (map_wts_unfold cs').
  1-6: repeat match goal with
       | |- context [isinstance ?m ?c] => destruct (isinstance m c)
       end; reflexivity.
  rewrite !isinstance_module.
  induction IH as [|g gs Hg _ IHgs]; simpl.
  - reflexivity.
  - rewrite !length_app, Hg, IHgs. reflexivity.
Qed.

Lemma n_arrays_module n fs :
  n_arrays (EqxModule n fs) = list_sum (map n_arrays fs).
Proof.
  unfold n_arrays. simpl. induction fs as [|f fs IH]; simpl.
  - reflexivity.
  - rewrite filter_app, length_app, IH. reflexivity.
Qed.

Lemma length_flat_map_sum {A B : Type} (f : A -> list B) (l : list A) :
  length (flat_map f l) = list_sum (map (fun x => length (f x)) l).
Proof.
  induction l as [|x l IH]; simpl.
  - reflexivity.
  - rewrite length_app, IH. reflexivity.
Qed.

(** Changing weights changes no leaf count. *)
Lemma n_arrays_map_wts cs f m : n_arrays (map_wts cs f m) = n_arrays m.
Proof.
  induction m as [w b|w|w b|x|o| |n fs IH] using GPT_tree_ind;
    rewrite map_wts_unfold.
  1-6: match goal with
       | |- context [isinstance ?m ?c] => destruct (isinstance m c)
       end; reflexivity.
  rewrite isinstance_module, !n_arrays_module, map_map. f_equal.
  induction IH as [|g gs Hg _ IHgs]; simpl.
  - reflexivity.
  - rewrite Hg, IHgs. reflexivity.
Qed.

(** Every array of the model is the weight of a linear layer, or the weight
    of a LayerNorm, or one of the arrays no selector of [shard_gpt] reaches. *)
Lemma n_arrays_split m :
  n_arrays m = n_placed m + length (unplaced m).
Proof.
  unfold n_placed.
  induction m as [w b|w|w b|x|o| |n fs IH] using GPT_tree_ind;
    try (destruct b; reflexivity); try reflexivity.
  rewrite n_arrays_module. simpl.
  rewrite !length_flat_map_sum.
  induction IH as [|g gs Hg _ IHgs]; simpl.
  - reflexivity.
  - rewrite Hg, IHgs. lia.
Qed.

(** [shard_gpt] in closed form: the assertion compares two counts of the
    model it was given, and the model handed back is the given one with the
    weights of the layers passed through [sharding_fn]. *)
Lemma shard_gpt_eq model mesh shard_model sharding_fn :
  shard_gpt model mesh shard_model sharding_fn =
  if Nat.eqb (n_arrays model) (n_placed model)
  then Ok (placed sharding_fn mesh shard_model model)
  else Raise not_sharded.
Proof.
  unfold shard_gpt, placed, get_lin_wts, get_ln_wts.
  set (f := fun w => sharding_fn w (lin_sharding mesh shard_model)).
  set (g := fun w => sharding_fn w (ln_sharding mesh shard_model)).
  assert (E : (if shard_model
               then (mkNamedSharding mesh (P [None; Some "data"%string]),
                     mkNamedSharding mesh (P [Some "data"%string]))
               else (mkNamedSharding mesh (P [None; None]),
                     mkNamedSharding mesh (P [None])))
              = (lin_sharding mesh shard_model, ln_sharding mesh shard_model))
    by (destruct shard_model; reflexivity).
  rewrite E. clear E.
  rewrite get_wts_ok, bind_ok.
  change (map (fun w => sharding_fn w (lin_sharding mesh shard_model)))
    with (map f).
  rewrite tree_at_map, bind_ok, get_wts_ok, bind_ok.
  change (map (fun w => sharding_fn w (ln_sharding mesh shard_model)))
    with (map g).
  rewrite tree_at_map, bind_ok.
  change (length (filter is_array (tree_leaves (map_wts ln_cls g (map_wts lin_cls f model)))))
    with (n_arrays (map_wts ln_cls g (map_wts lin_cls f model))).
  rewrite !n_arrays_map_wts, !length_map, length_layer_wts_map.
  reflexivity.
Qed.

Lemma n_placed_placed sharding_fn mesh shard_model m :
  n_placed (placed sharding_fn mesh shard_model m) = n_placed m.
Proof. unfold n_placed, placed. rewrite !length_layer_wts_map. reflexivity. Qed.

Lemma n_arrays_placed sharding_fn mesh shard_model m :
  n_arrays (placed sharding_fn mesh shard_model m) = n_arrays m.
Proof. unfold placed. rewrite !n_arrays_map_wts. reflexivity. Qed.

Lemma unplaced_map_wts cs f m : unplaced (map_wts cs f m) = unplaced m.
Proof.
  induction m as [w b|w|w b|x|o| |n fs IH] using GPT_tree_ind;
    rewrite map_wts_unfold.
  1-6: match goal with
       | |- context [isinstance ?m ?c] => destruct (isinstance m c)
       end; reflexivity.
  rewrite isinstance_module. simpl.
  induction IH as [|g gs Hg _ IHgs]; simpl.
  - reflexivity.
  - rewrite Hg, IHgs. reflexivity.
Qed.

(** C5.  For every model tree handed to [shard_gpt], whatever the mesh, the
    mode and the placing function: the call returns normally exactly when
    the number of array-valued leaves equals the number of weights given a
    placement, and it raises the assertion error "Some parameters are not
    being sharded!" exactly when the two counts differ. *)
Theorem shard_gpt_placement_check :
  forall (model : GPT) (mesh : Mesh) (shard_model : bool)
         (sharding_fn : Array -> NamedSharding -> Array),
    (n_arrays model = n_placed model <->
     returns (shard_gpt model mesh shard_model sharding_fn) = true) /\
    (n_arrays model <> n_placed model <->
     shard_gpt model mesh shard_model sharding_fn = Raise not_sharded).
Proof.
  intros model mesh shard_model sharding_fn.
  rewrite shard_gpt_eq.
  destruct (Nat.eqb (n_arrays model) (n_placed model)) eqn:E.
  - apply Nat.eqb_eq in E. split; split; simpl; intros H;
      try reflexivity; try assumption; try contradiction; discriminate.
  - apply Nat.eqb_neq in E. split; split; simpl; intros H;
      try reflexivity; try assumption; try contradiction; discriminate.
Qed.

(** Placing twice under one sharding is placing once. *)
Lemma with_sharding_constraint_twice w s s' :
  with_sharding_constraint (with_sharding_constraint w s') s
  = with_sharding_constraint w s.
Proof. reflexivity. Qed.

Lemma map_wts_module cs f n fs :
  map_wts cs f (EqxModule n fs) = EqxModule n (map (map_wts cs f) fs).
Proof. reflexivity. Qed.

Lemma placed_idempotent mesh shard_model m :
  placed with_sharding_constraint mesh shard_model
    (placed with_sharding_constraint mesh shard_model m)
  = placed with_sharding_constraint mesh shard_model m.
Proof.
  unfold placed.
  induction m as [w b|w|w b|x|o| |n fs IH] using GPT_tree_ind;
    try reflexivity.
  rewrite !map_wts_module, !map_map. f_equal.
  apply map_ext_Forall. exact IH.
Qed.

(** C6.  [shard_gpt] under its default placing function is idempotent: for
    every model tree, mesh and mode, sharding the sharded tree again gives
    what sharding once gives, the same tree with the same placements, or the
    same assertion error when the first call raises. *)
Theorem shard_gpt_idempotent :
  forall (T : GPT) (mesh : Mesh) (flag : bool),
    (T' <- shard_gpt T mesh flag with_sharding_constraint ;;
     shard_gpt T' mesh flag with_sharding_constraint)
    = shard_gpt T mesh flag with_sharding_constraint.
Proof.
  intros T mesh flag.
  rewrite (shard_gpt_eq T).
  destruct (Nat.eqb (n_arrays T) (n_placed T)) eqn:E; simpl.
  - rewrite shard_gpt_eq, n_arrays_placed, n_placed_placed, E, placed_idempotent.
    reflexivity.
  - reflexivity.
Qed.

(** A bias is an array no selector of [shard_gpt] reaches. *)
Lemma biases_unplaced m : incl (biases m) (unplaced m).
Proof.
  induction m as [w b|w|w b|x|o| |n fs IH] using GPT_tree_ind;
    try apply incl_refl; try (intros a []).
  simpl. induction IH as [|g gs Hg _ IHgs]; simpl.
  - apply incl_refl.
  - apply incl_app_app; assumption.
Qed.

(** C10.  A model that holds an array which is the weight of no Linear,
    Embedding or LayerNorm layer makes the assertion of [shard_gpt] fail, in
    the sharded and in the replicated mode alike; a model with a bias in one
    of its layers is such a model; so a call that returns was given a model
    without such an array, and hands back one without. *)
Theorem shard_gpt_halts_on_unplaced :
  forall (model : GPT) (mesh : Mesh)
         (sharding_fn : Array -> NamedSharding -> Array),
    (biases model <> [] -> unplaced model <> []) /\
    (unplaced model <> [] ->
     shard_gpt model mesh true sharding_fn = Raise not_sharded /\
     shard_gpt model mesh false sharding_fn = Raise not_sharded) /\
    (forall shard_model model',
       shard_gpt model mesh shard_model sharding_fn = Ok model' ->
       unplaced model = [] /\ unplaced model' = []).
Proof.
  intros model mesh sharding_fn.
  assert (Hcount : forall shard_model,
             shard_gpt model mesh shard_model sharding_fn =
             match unplaced model with
             | [] => Ok (placed sharding_fn mesh shard_model model)
             | _ :: _ => Raise not_sharded
             end).
  { intros shard_model. rewrite shard_gpt_eq, n_arrays_split.
    destruct (unplaced model) as [|a l]; simpl.
    - rewrite Nat.add_0_r, Nat.eqb_refl. reflexivity.
    - replace (Nat.eqb _ _) with false; [reflexivity|].
      symmetry. apply Nat.eqb_neq. lia. }
  split; [|split].
  - intros Hb Hu. pose proof (biases_unplaced model) as Hincl.
    rewrite Hu in Hincl. destruct (biases model) as [|a l]; [contradiction|].
    exact (Hincl a (or_introl eq_refl)).
  - intros H. rewrite !Hcount.
    destruct (unplaced model); [contradiction|]. split; reflexivity.
  - intros shard_model model' H. rewrite Hcount in H.
    destruct (unplaced model) eqn:E; [|discriminate].
    injection H as <-. split; [reflexivity|].
    unfold placed. rewrite !unplaced_map_wts. exact E.
Qed.

Lemma shard_gpt_halts_on_unplaced_witness :
  shard_gpt biased_block mesh8 true with_sharding_constraint = Raise not_sharded /\
  shard_gpt biased_block mesh8 false with_sharding_constraint = Raise not_sharded.
Proof.
  destruct (shard_gpt_halts_on_unplaced biased_block mesh8 with_sharding_constraint)
    as [Hbias [Hhalt _]].
  apply Hhalt. apply Hbias. simpl. discriminate.
Defined.

(** ** Flattening and rebuilding trees *)

Lemma GPTDef_tree_ind (Q : GPTDef -> Prop) :
  (forall hb, Q (DLinear hb)) ->
  Q DEmbedding ->
  (forall hb, Q (DLayerNorm hb)) ->
  Q DLeaf ->
  Q DNone ->
  (forall n ds, Forall Q ds -> Q (DModule n ds)) ->
  forall d, Q d.
Proof.
  intros H_linear H_embedding H_layernorm H_leaf H_none H_module.
  fix IH 1. intros [hb| |hb| | |n ds].
  - apply H_linear.
  - apply H_embedding.
  - apply H_layernorm.
  - apply H_leaf.
  - apply H_none.
  - apply H_module. induction ds as [|d ds IHds]; constructor.
    + apply IH.
    + exact IHds.
Qed.

Lemma gpt_fill_module n ds ls :
  gpt_fill (DModule n ds) ls =
  ('(fs, rest) <- fill_fields ds ls ;; Ok (EqxModule n fs, rest)).
Proof. reflexivity. Qed.

Lemma take_bias_leaves b rest :
  take_bias (has b) (opt_leaves b ++ rest) = Ok (b, rest).
Proof. destruct b; reflexivity. Qed.

(** Filling the structure of a tree from its own leaves rebuilds the tree
    and leaves the rest of the sequence untouched. *)
Lemma gpt_fill_leaves m rest :
  gpt_fill (gpt_structure m) (gpt_leaves m ++ rest) = Ok (m, rest).
Proof.
  revert rest.
  induction m as [w b|w|w b|x|o| |n fs IH] using GPT_tree_ind; intros rest;
    try reflexivity.
  - simpl. rewrite take_bias_leaves. reflexivity.
  - simpl. rewrite take_bias_leaves. reflexivity.
  - cbn [gpt_structure gpt_leaves]. rewrite gpt_fill_module.
    assert (Hfs : fill_fields (map gpt_structure fs) (flat_map gpt_leaves fs ++ rest)
                  = Ok (fs, rest)).
    { induction IH as [|g gs Hg _ IHgs]; simpl.
      - reflexivity.
      - rewrite <- app_assoc, Hg. simpl. rewrite IHgs. reflexivity. }
    rewrite Hfs. reflexivity.
Qed.

Lemma take_array_inv ls a rest :
  take_array ls = Ok (a, rest) -> ls = LArray a :: rest.
Proof.
  destruct ls as [|[a'|o] ls']; simpl; intros H; try discriminate.
  injection H as <- <-. reflexivity.
Qed.

Lemma take_bias_inv hb ls b rest :
  take_bias hb ls = Ok (b, rest) -> has b = hb /\ ls = opt_leaves b ++ rest.
Proof.
  destruct hb; simpl.
  - destruct (take_array ls) as [[a r]|e] eqn:E; simpl; intros H; [|discriminate].
    injection H as <- <-. apply take_array_inv in E. split; [reflexivity|exact E].
  - intros H. injection H as <- <-. split; reflexivity.
Qed.

(** A tree filled into a structure has that structure, and its leaves are
    the ones used up, in order. *)
Lemma gpt_fill_inv d :
  forall ls m rest,
    gpt_fill d ls = Ok (m, rest) ->
    gpt_structure m = d /\ ls = gpt_leaves m ++ rest.
Proof.
  induction d as [hb| |hb| | |n ds IH] using GPTDef_tree_ind; intros ls m rest H.
  - simpl in H.
    destruct (take_array ls) as [[w r1]|e] eqn:E1; simpl in H; [|discriminate].
    destruct (take_bias hb r1) as [[b r2]|e] eqn:E2; simpl in H; [|discriminate].
    injection H as <- <-.
    apply take_array_inv in E1. apply take_bias_inv in E2. destruct E2 as [Hb ->].
    subst ls. simpl. rewrite Hb. split; reflexivity.
  - simpl in H.
    destruct (take_array ls) as [[w r1]|e] eqn:E1; simpl in H; [|discriminate].
    injection H as <- <-. apply take_array_inv in E1. subst ls. split; reflexivity.
  - simpl in H.
    destruct (take_array ls) as [[w r1]|e] eqn:E1; simpl in H; [|discriminate].
    destruct (take_bias hb r1) as [[b r2]|e] eqn:E2; simpl in H; [|discriminate].
    injection H as <- <-.
    apply take_array_inv in E1. apply take_bias_inv in E2. destruct E2 as [Hb ->].
    subst ls. simpl. rewrite Hb. split; reflexivity.
  - simpl in H. destruct ls as [|[a|o] ls']; try discriminate;
      injection H as <- <-; split; reflexivity.
  - simpl in H. injection H as <- <-. split; reflexivity.
  - rewrite gpt_fill_module in H.
    destruct (fill_fields ds ls) as [[fs r]|e] eqn:E; simpl in H; [|discriminate].
    injection H as <- <-.
    assert (Hfs : map gpt_structure fs = ds /\ ls = flat_map gpt_leaves fs ++ r).
    { clear n. revert ls fs r E.
      induction IH as [|d ds Hd _ IHds]; intros ls fs r E; simpl in E.
      - injection E as <- <-. split; reflexivity.
      - destruct (gpt_fill d ls) as [[f r1]|e] eqn:E1; simpl in E; [|discriminate].
        destruct (fill_fields ds r1) as [[fs' r2]|e] eqn:E2; simpl in E; [|discriminate].
        injection E as <- <-.
        destruct (Hd _ _ _ E1) as [Hs ->].
        destruct (IHds _ _ _ E2) as [Hss ->].
        simpl. rewrite Hs, Hss, app_assoc. split; reflexivity. }
    destruct Hfs as [Hs ->]. simpl. rewrite Hs. split; reflexivity.
Qed.

Lemma GPT_PyTreeLaws : PyTreeLaws GPT.
Proof.
  split.
  - intros t. simpl. unfold gpt_unflatten.
    rewrite <- (app_nil_r (gpt_leaves t)), gpt_fill_leaves. reflexivity.
  - intros d ls t. simpl. unfold gpt_unflatten.
    destruct (gpt_fill d ls) as [[m r]|e] eqn:E; simpl; [|discriminate].
    destruct r; [|discriminate]. intros H. injection H as <-.
    apply gpt_fill_inv in E. rewrite app_nil_r in E. destruct E as [Hs ->].
    split; [exact Hs | reflexivity].
Qed.

#[export] Existing Instance GPT_PyTreeLaws.

Lemma OptState_PyTreeLaws : PyTreeLaws OptState.
Proof.
  split.
  - intros [c1 m n c2]. simpl. unfold opt_state_unflatten, opt_state_leaves. simpl.
    rewrite gpt_fill_leaves. simpl. rewrite gpt_fill_leaves. reflexivity.
  - intros [d1 d2] ls t. simpl. unfold opt_state_unflatten. simpl.
    destruct (take_array ls) as [[c1 r1]|e] eqn:E1; simpl; [|discriminate].
    destruct (gpt_fill d1 r1) as [[m r2]|e] eqn:E2; simpl; [|discriminate].
    destruct (gpt_fill d2 r2) as [[n r3]|e] eqn:E3; simpl; [|discriminate].
    destruct (take_array r3) as [[c2 r4]|e] eqn:E4; simpl; [|discriminate].
    destruct r4; [|discriminate]. intros H. injection H as <-.
    apply take_array_inv in E1. apply take_array_inv in E4.
    apply gpt_fill_inv in E2. apply gpt_fill_inv in E3.
    destruct E2 as [H1 ->]. destruct E3 as [H2 ->]. subst ls r3.
    unfold opt_state_structure, opt_state_leaves. simpl.
    rewrite H1, H2. split; reflexivity.
Qed.

#[export] Existing Instance OptState_PyTreeLaws.

(** Leaves of a tree, put into the structure of a tree shaped like it, give
    the tree back. *)
Lemma unflatten_into_same_structure {T : Type} {PT : PyTree T} {L : PyTreeLaws T}
  (current saved : T) :
  tree_structure current = tree_structure saved ->
  tree_unflatten (tree_structure current) (tree_leaves saved) = Ok saved.
Proof. intros ->. apply unflatten_flatten. Qed.

(** ** The checkpoint manager *)

Lemma remove_old_keep_one (cs : list (Z * Item)) (c : Z * Item) :
  remove_old (Some 1) (cs ++ [c]) = [c].
Proof.
  unfold remove_old. rewrite length_app. simpl.
  replace (length cs + 1 - 1) with (length cs) by lia.
  rewrite skipn_app, Nat.sub_diag, skipn_all. reflexivity.
Qed.

(** A save the manager accepts leaves, under the options of [train], the
    new checkpoint as the only one. *)
Lemma save_accepted eval_interval mngr step items :
  options mngr = ckpt_options eval_interval ->
  should_save mngr step = true ->
  save mngr step items = (mkManager (options mngr) [(step, items)], true).
Proof.
  intros Hopt Hs. unfold save. rewrite Hs, Hopt.
  change (max_to_keep (ckpt_options eval_interval)) with (Some 1).
  rewrite remove_old_keep_one. reflexivity.
Qed.

(** A save the manager refuses changes nothing. *)
Lemma save_refused mngr step items :
  should_save mngr step = false -> save mngr step items = (mngr, false).
Proof. intros Hs. unfold save. rewrite Hs. reflexivity. Qed.

Lemma fold_max_in (l : list Z) (s : Z) : In (fold_left Z.max l s) (s :: l).
Proof.
  revert s. induction l as [|x l IH]; intros s; simpl.
  - left. reflexivity.
  - destruct (IH (Z.max s x)) as [H|H].
    + rewrite <- H.
      destruct (Z.max_spec s x) as [[_ E]|[_ E]]; rewrite E;
        [right; left; reflexivity | left; reflexivity].
    + right. right. exact H.
Qed.

(** The latest step names a checkpoint the manager can restore. *)
Lemma latest_step_restorable mngr last :
  latest_step mngr = Some last -> exists items, restore mngr last = Ok items.
Proof.
  unfold latest_step, all_steps, restore. intros H.
  assert (Hin : In last (map fst (checkpoints mngr))).
  { destruct (map fst (checkpoints mngr)) as [|s rest]; [discriminate|].
    injection H as <-. apply fold_max_in. }
  apply in_map_iff in Hin. destruct Hin as [c [Hc Hin]].
  destruct (find (fun c0 => (fst c0 =? last)%Z) (checkpoints mngr)) as [c'|] eqn:E.
  - exists (snd c'). reflexivity.
  - exfalso. apply (find_none _ _ E) in Hin. simpl in Hin.
    rewrite Hc, Z.eqb_refl in Hin. discriminate.
Qed.

Lemma range_first (first_step max_steps : Z) :
  (first_step < max_steps)%Z ->
  range first_step max_steps = first_step :: range (first_step + 1) max_steps.
Proof.
  intros H. unfold range.
  replace (Z.to_nat (max_steps - first_step))
    with (S (Z.to_nat (max_steps - (first_step + 1)))) by lia.
  simpl. rewrite Z.add_0_r. f_equal.
  rewrite <- seq_shift, map_map. apply map_ext. intros i. lia.
Qed.

Lemma range_empty (first_step max_steps : Z) :
  (max_steps <= first_step)%Z -> range first_step max_steps = [].
Proof.
  intros H. unfold range.
  replace (Z.to_nat (max_steps - first_step)) with 0 by lia. reflexivity.
Qed.

(** Start-up on a manager whose latest checkpoint holds the leaves of trees
    shaped like the fresh ones. *)
Lemma restore_checkpoint_latest mngr last (M : GPT) (O : OptState) model opt_state :
  latest_step mngr = Some last ->
  restore mngr last = Ok (tree_leaves M, tree_leaves O) ->
  tree_structure model = tree_structure M ->
  tree_structure opt_state = tree_structure O ->
  restore_checkpoint mngr model opt_state = Ok (M, O, (last + 1)%Z).
Proof.
  intros Hl Hr HM HO. unfold restore_checkpoint. rewrite Hl, Hr. cbn [bind].
  rewrite (unflatten_into_same_structure model M HM). cbn [bind].
  rewrite (unflatten_into_same_structure opt_state O HO). reflexivity.
Qed.

(** C3, as stated, fails.  With [eval_interval = 1000] and the checkpoint of
    step 0 in place, the save of step 1 is not written: restoring after it
    gives the trees of step 0, not the ones just handed to [save]. *)
Lemma checkpoint_save_skipped_off_interval :
  restore_checkpoint
    (save_checkpoint false mngr_after_step0 1 (scale_only 20) (opt_at 2 2 2))
    (scale_only 20) (opt_at 2 2 2)
  = Ok (scale_only 10, opt_at 1 1 1, 1%Z)
  /\ scale_only 10 <> scale_only 20
  /\ opt_at 1 1 1 <> opt_at 2 2 2.
Proof.
  split; [reflexivity|]. split; discriminate.
Qed.

(** C3, amended.  For every step [s] at which the manager accepts the save
    (no checkpoint exists yet, or [s] is past the latest one and a multiple
    of the save interval), every model tree [M] and optimizer state [O]:
    after [save(s, leaves M, leaves O)], start-up on fresh trees of the same
    structure restores exactly [M] and [O], re-attached to the structure of
    the fresh trees, and continues at step [s + 1]. *)
Theorem checkpoint_roundtrip :
  forall (eval_interval : Z) (mngr : CheckpointManager) (s : Z)
         (M : GPT) (O : OptState) (model : GPT) (opt_state : OptState),
    options mngr = ckpt_options eval_interval ->
    should_save mngr s = true ->
    tree_structure model = tree_structure M ->
    tree_structure opt_state = tree_structure O ->
    restore_checkpoint (save_checkpoint false mngr s M O) model opt_state
    = Ok (M, O, (s + 1)%Z)
    /\ tree_structure M = tree_structure model
    /\ tree_structure O = tree_structure opt_state.
Proof.
  intros eval_interval mngr s M O model opt_state Hopt Hs HM HO.
  split; [|split; symmetry; assumption].
  unfold save_checkpoint. rewrite (save_accepted eval_interval mngr s _ Hopt Hs). cbn [fst].
  apply restore_checkpoint_latest; try assumption.
  - reflexivity.
  - unfold restore. simpl. rewrite Z.eqb_refl. reflexivity.
Qed.

Lemma checkpoint_roundtrip_witness :
  restore_checkpoint
    (save_checkpoint false mngr_after_step0 1000 (scale_only 20) (opt_at 2 2 2))
    (scale_only 0) (opt_at 0 0 0)
  = Ok (scale_only 20, opt_at 2 2 2, 1001%Z)
  /\ tree_structure (scale_only 20) = tree_structure (scale_only 0)
  /\ tree_structure (opt_at 2 2 2) = tree_structure (opt_at 0 0 0).
Proof.
  apply (checkpoint_roundtrip 1000); reflexivity.
Defined.

(** Whenever start-up on a manager with a checkpoint returns, it hands back
    the leaves stored under the latest step, in the structure of the fresh
    trees, and the step after the latest. *)
Lemma restore_checkpoint_inv mngr last model opt_state model' opt_state' first_step :
  latest_step mngr = Some last ->
  restore_checkpoint mngr model opt_state = Ok (model', opt_state', first_step) ->
  first_step = (last + 1)%Z /\
  restore mngr last = Ok (tree_leaves model', tree_leaves opt_state') /\
  tree_structure model' = tree_structure model /\
  tree_structure opt_state' = tree_structure opt_state.
Proof.
  intros Hl H. unfold restore_checkpoint in H. rewrite Hl in H.
  destruct (restore mngr last) as [[ml ol]|e]; cbn [bind] in H; [|discriminate].
  destruct (tree_unflatten (tree_structure model) ml) as [m|e] eqn:Em;
    cbn [bind] in H; [|discriminate].
  destruct (tree_unflatten (tree_structure opt_state) ol) as [o|e] eqn:Eo;
    cbn [bind] in H; [|discriminate].
  injection H as <- <- <-.
  destruct (flatten_unflatten _ _ Em) as [Hsm Hlm].
  destruct (flatten_unflatten _ _ Eo) as [Hso Hlo].
  rewrite Hlm, Hlo. repeat split; assumption.
Qed.

(** C4.  Start-up of [train].  Without a checkpoint the loop starts at step
    0 with the freshly built model and optimizer state.  With one, whose
    latest step [last] holds the leaves of a model and of an optimizer state
    shaped like the fresh ones, the loop starts at step [last + 1] with
    these: the steps it runs are [last + 1, ..., max_steps - 1].  In any
    case start-up with a checkpoint, when it returns, returns the step after
    the latest and the stored leaves in the structure of the fresh trees. *)
Theorem train_resumes_after_latest :
  forall (mngr : CheckpointManager) (max_steps : Z)
         (model : GPT) (opt_state : OptState),
    (latest_step mngr = None ->
       restore_checkpoint mngr model opt_state = Ok (model, opt_state, 0%Z) /\
       train_steps mngr max_steps model opt_state = Ok (range 0 max_steps)) /\
    (forall (last : Z) (M : GPT) (O : OptState),
       latest_step mngr = Some last ->
       restore mngr last = Ok (tree_leaves M, tree_leaves O) ->
       tree_structure model = tree_structure M ->
       tree_structure opt_state = tree_structure O ->
       restore_checkpoint mngr model opt_state = Ok (M, O, (last + 1)%Z) /\
       train_steps mngr max_steps model opt_state
       = Ok (range (last + 1) max_steps) /\
       ((last + 1 < max_steps)%Z ->
        range (last + 1) max_steps
        = (last + 1)%Z :: range (last + 1 + 1) max_steps)) /\
    (forall (last : Z) (model' : GPT) (opt_state' : OptState) (first_step : Z),
       latest_step mngr = Some last ->
       restore_checkpoint mngr model opt_state = Ok (model', opt_state', first_step) ->
       first_step = (last + 1)%Z /\
       restore mngr last = Ok (tree_leaves model', tree_leaves opt_state') /\
       tree_structure model' = tree_structure model /\
       tree_structure opt_state' = tree_structure opt_state).
Proof.
  intros mngr max_steps model opt_state. split; [|split].
  - intros Hl. unfold train_steps, restore_checkpoint. rewrite Hl.
    split; reflexivity.
  - intros last M O Hl Hr HM HO.
    pose proof (restore_checkpoint_latest _ _ _ _ _ _ Hl Hr HM HO) as E.
    split; [exact E|]. split.
    + unfold train_steps. rewrite E. reflexivity.
    + apply range_first.
  - intros last model' opt_state' first_step Hl H.
    exact (restore_checkpoint_inv _ _ _ _ _ _ _ Hl H).
Qed.

Lemma train_resumes_after_latest_witness :
  (restore_checkpoint mngr_fresh (scale_only 0) (opt_at 0 0 0)
   = Ok (scale_only 0, opt_at 0 0 0, 0%Z) /\
   train_steps mngr_fresh 3 (scale_only 0) (opt_at 0 0 0) = Ok [0; 1; 2]%Z) /\
  (restore_checkpoint mngr_after_step0 (scale_only 0) (opt_at 0 0 0)
   = Ok (scale_only 10, opt_at 1 1 1, 1%Z) /\
   train_steps mngr_after_step0 3 (scale_only 0) (opt_at 0 0 0) = Ok [1; 2]%Z).
Proof.
  split.
  - apply (proj1 (train_resumes_after_latest mngr_fresh 3 (scale_only 0) (opt_at 0 0 0))).
    reflexivity.
  - destruct (proj1 (proj2 (train_resumes_after_latest mngr_after_step0 3
                              (scale_only 0) (opt_at 0 0 0)))
                    0%Z (scale_only 10) (opt_at 1 1 1)
                    eq_refl eq_refl eq_refl eq_refl) as [H1 [H2 _]].
    split; [exact H1 | exact H2].
Defined.

(** ** The batch sampler and the random keys *)

(** The sub-keys of a run depend on the seed and the number of steps only:
    whatever the generator of [np.random] holds, a run that gets through
    its steps hands [step] the same keys. *)
Lemma train_loop_step_keys config train_data val_data steps :
  forall key st run,
    train_loop config train_data val_data steps key st = Ok run ->
    map step_key run = step_keys (length steps) key.
Proof.
  induction steps as [|i steps IH]; intros key st run H; simpl in H.
  - injection H as <-. reflexivity.
  - destruct (if debug config then _ else _) as [st1|e]; simpl in H;
      [|discriminate].
    destruct (get_batch _ _ _ _ st1) as [[b st2]|e]; simpl in H; [|discriminate].
    destruct (train_loop _ _ _ steps _ st2) as [more|e] eqn:E; simpl in H;
      [|discriminate].
    injection H as <-. simpl. f_equal. exact (IH _ _ _ E).
Qed.

(** C7, on the code.  Two runs of [train] from the same seed, on the same
    data and configuration, through the same two steps: the sub-keys handed
    to [step] agree, the batches do not.  The batch indices come from the
    generator of [np.random], which the seed does not reach. *)
Theorem train_same_seed_different_batches :
  exists run_a run_b : list consumed,
    train_consumes tiny_config tiny_train tiny_val 0 np_state_a = Ok run_a /\
    train_consumes tiny_config tiny_train tiny_val 0 np_state_b = Ok run_b /\
    map itr run_a = map itr run_b /\
    map step_key run_a = map step_key run_b /\
    map xy run_a <> map xy run_b.
Proof.
  eexists. eexists.
  split; [vm_compute; reflexivity|].
  split; [vm_compute; reflexivity|].
  split; [reflexivity|]. split; [reflexivity|].
  discriminate.
Qed.

(** ** The loss function *)

Section LossFn_properties.

Variable values : Type.
Variable cast : DType -> DType -> values -> values.
Variable softmax_cross_entropy_kernel : DType -> values -> list (list Z) -> values.
Variable mean_kernel : DType -> values -> values.
Variable Params Static Model : Type.
Variable combine : Params -> Static -> Model.
Variable vmap_model : Model -> list (list Z) -> option (list KeyArray) -> Tensor values.

Let losses := token_losses cast softmax_cross_entropy_kernel.
Let loss := loss_fn cast softmax_cross_entropy_kernel mean_kernel combine vmap_model.

(** C8.  Whatever the element type of the logits, [loss_fn] computes the
    per-token losses and their mean in float32, a type of 32 bits, and
    returns that mean cast to the element type the logits came in. *)
Theorem loss_fn_float32_then_orig_dtype :
  forall (model_params : Params) (model_static : Static)
         (x y : list (list Z)) (key : option KeyArray),
    let logits := vmap_model (combine model_params model_static) x (row_keys x key) in
    tdtype (losses logits y) = float32 /\
    tdtype (mean mean_kernel (losses logits y)) = float32 /\
    32 <= float_bits (tdtype (mean mean_kernel (losses logits y))) /\
    tvalues (losses logits y)
    = softmax_cross_entropy_kernel float32
        (cast (tdtype logits) float32 (tvalues logits)) y /\
    loss model_params model_static x y key
    = astype cast (mean mean_kernel (losses logits y)) (tdtype logits) /\
    tdtype (loss model_params model_static x y key) = tdtype logits.
Proof.
  intros model_params model_static x y key logits.
  unfold losses, loss, loss_fn, token_losses, row_keys in *.
  destruct key; simpl; repeat split; reflexivity || apply Nat.le_refl.
Qed.

(** In the single-device script the loss stays in the element type of the
    logits: it has no compute type apart from the one of the parameters. *)
Lemma loss_fn_single_dtype (model : Model) (x y : list (list Z)) (key : option KeyArray) :
  tdtype (loss_fn_single softmax_cross_entropy_kernel mean_kernel vmap_model model x y key)
  = tdtype (vmap_model model x (row_keys x key)).
Proof. destruct key; reflexivity. Qed.

End LossFn_properties.

(** ** The learning-rate schedule *)

Section Schedule_properties.

Local Open Scope R_scope.

Variables peak floor : R.
Variables warmup decay : Z.

Hypothesis warmup_pos : (0 < warmup)%Z.
Hypothesis decay_after_warmup : (warmup < decay)%Z.
Hypothesis peak_pos : 0 < peak.
Hypothesis floor_le_peak : floor <= peak.

Local Abbreviation lr := (Schedule.lr peak floor warmup decay).

(** Names the injections of integer expressions, so that [field] and [lra]
    see them as atoms. *)
Ltac name_IZR :=
  repeat match goal with
         | |- context [IZR ?z] =>
             lazymatch z with
             | Z0 => fail
             | Zpos _ => fail
             | Zneg _ => fail
             | _ => let r := fresh "r" in set (r := IZR z) in *
             end
         end.

Lemma IZR_warmup_pos : 0 < IZR warmup.
Proof. apply (IZR_lt 0). exact warmup_pos. Qed.

Lemma IZR_span_pos : 0 < IZR (decay - warmup).
Proof. apply (IZR_lt 0). lia. Qed.

Lemma schedule_is_lr :
  warmup_cosine_decay_schedule 0 peak warmup decay floor
  = Ok (join_schedules (linear_schedule 0 peak warmup)
          (fun count =>
             peak * ((1 - floor / peak)
                     * (/ 2 * (1 + cos (PI * IZR (Z.min count (decay - warmup))
                                        / IZR (decay - warmup))))
                     + floor / peak))
          warmup).
Proof.
  unfold warmup_cosine_decay_schedule, cosine_decay_schedule.
  destruct (Z.leb_spec (decay - warmup) 0) as [H|H]; [lia|]. reflexivity.
Qed.

Lemma joined_is_lr (step : Z) :
  join_schedules (linear_schedule 0 peak warmup)
    (fun count =>
       peak * ((1 - floor / peak)
               * (/ 2 * (1 + cos (PI * IZR (Z.min count (decay - warmup))
                                  / IZR (decay - warmup))))
               + floor / peak))
    warmup step
  = lr step.
Proof.
  unfold join_schedules, Schedule.lr, linear_schedule.
  destruct (Z.ltb_spec step warmup) as [Hs|Hs]; [|reflexivity].
  destruct (Z.leb_spec warmup 0) as [H|H]; [lia|].
  cbv zeta.
  replace (Z.min (Z.max step 0) warmup) with (Z.max step 0) by lia.
  pose proof IZR_warmup_pos as Hw.
  name_IZR. simpl pow. field. lra.
Qed.

Lemma lr_step_0 : lr 0 = 0.
Proof.
  unfold Schedule.lr. destruct (Z.ltb_spec 0 warmup) as [H|H]; [|lia].
  pose proof IZR_warmup_pos. change (Z.max 0 0) with 0%Z. name_IZR. field. lra.
Qed.

Lemma lr_at_warmup : lr warmup = peak.
Proof.
  unfold Schedule.lr. destruct (Z.ltb_spec warmup warmup) as [H|H]; [lia|].
  replace (Z.min (warmup - warmup) (decay - warmup)) with 0%Z by lia.
  replace (PI * 0 / IZR (decay - warmup)) with 0
    by (pose proof IZR_span_pos; name_IZR; field; lra).
  rewrite cos_0. field. lra.
Qed.

Lemma lr_after_decay (step : Z) : (decay <= step)%Z -> lr step = floor.
Proof.
  intros Hs. unfold Schedule.lr. destruct (Z.ltb_spec step warmup) as [H|H]; [lia|].
  replace (Z.min (step - warmup) (decay - warmup)) with (decay - warmup)%Z by lia.
  replace (PI * IZR (decay - warmup) / IZR (decay - warmup)) with PI
    by (pose proof IZR_span_pos; name_IZR; field; lra).
  rewrite cos_PI. field. lra.
Qed.

Lemma lr_warmup_le_peak (step : Z) : (step < warmup)%Z -> lr step <= peak.
Proof.
  intros Hs. unfold Schedule.lr. destruct (Z.ltb_spec step warmup) as [H|H]; [|lia].
  pose proof IZR_warmup_pos as Hw.
  assert (Hm : IZR (Z.max step 0) <= IZR warmup) by (apply IZR_le; lia).
  assert (Hq : IZR (Z.max step 0) / IZR warmup <= 1).
  { apply (Rmult_le_reg_r (IZR warmup)); [exact Hw|].
    unfold Rdiv. rewrite Rmult_assoc, Rinv_l by lra. lra. }
  nra.
Qed.

Lemma lr_warmup_monotone (s t : Z) :
  (s <= t)%Z -> (t <= warmup)%Z -> lr s <= lr t.
Proof.
  intros Hst Ht.
  destruct (Z.eq_dec t warmup) as [->|Hne].
  - destruct (Z.eq_dec s warmup) as [->|Hs]; [lra|].
    rewrite lr_at_warmup. apply lr_warmup_le_peak. lia.
  - unfold Schedule.lr.
    destruct (Z.ltb_spec s warmup) as [H1|H1]; [|lia].
    destruct (Z.ltb_spec t warmup) as [H2|H2]; [|lia].
    pose proof IZR_warmup_pos as Hw.
    assert (Hm : IZR (Z.max s 0) <= IZR (Z.max t 0)) by (apply IZR_le; lia).
    apply Rmult_le_compat_l; [lra|].
    unfold Rdiv. apply Rmult_le_compat_r; [|exact Hm].
    left. apply Rinv_0_lt_compat. exact Hw.
Qed.

Lemma lr_decay_monotone (s t : Z) :
  (warmup <= s)%Z -> (s <= t)%Z -> lr t <= lr s.
Proof.
  intros Hs Hst. unfold Schedule.lr.
  destruct (Z.ltb_spec s warmup) as [H1|H1]; [lia|].
  destruct (Z.ltb_spec t warmup) as [H2|H2]; [lia|].
  pose proof IZR_span_pos as Hd.
  set (cs := Z.min (s - warmup) (decay - warmup)).
  set (ct := Z.min (t - warmup) (decay - warmup)).
  assert (Hcs0 : 0 <= IZR cs) by (apply (IZR_le 0); unfold cs; lia).
  assert (Hcst : IZR cs <= IZR ct) by (apply IZR_le; unfold cs, ct; lia).
  assert (Hctd : IZR ct <= IZR (decay - warmup)) by (apply IZR_le; unfold ct; lia).
  pose proof PI_RGT_0 as Hpi.
  assert (Hinv : 0 < / IZR (decay - warmup)) by (apply Rinv_0_lt_compat; exact Hd).
  assert (Hscale : forall c, PI * IZR c / IZR (decay - warmup)
                             = (IZR c * / IZR (decay - warmup)) * PI)
    by (intros c; unfold Rdiv; ring).
  assert (Hq : forall c, 0 <= IZR c -> IZR c <= IZR (decay - warmup) ->
                         0 <= IZR c * / IZR (decay - warmup) <= 1).
  { intros c H0 H1'. split.
    - apply Rmult_le_pos; lra.
    - apply (Rmult_le_reg_r (IZR (decay - warmup))); [exact Hd|].
      rewrite Rmult_assoc, Rinv_l by lra. lra. }
  assert (Hcos : cos (PI * IZR ct / IZR (decay - warmup))
                 <= cos (PI * IZR cs / IZR (decay - warmup))).
  { apply cos_decr_1.
    - rewrite Hscale. destruct (Hq cs Hcs0 ltac:(lra)). nra.
    - rewrite Hscale. destruct (Hq cs Hcs0 ltac:(lra)). nra.
    - rewrite Hscale. destruct (Hq ct ltac:(lra) Hctd). nra.
    - rewrite Hscale. destruct (Hq ct ltac:(lra) Hctd). nra.
    - rewrite !Hscale. apply Rmult_le_compat_r; [lra|].
      apply Rmult_le_compat_r; lra. }
  assert (Halpha : 0 <= 1 - floor / peak).
  { assert (floor / peak <= 1); [|lra].
    apply (Rmult_le_reg_r peak); [exact peak_pos|].
    unfold Rdiv. rewrite Rmult_assoc, Rinv_l by lra. lra. }
  apply Rmult_le_compat_l; [lra|].
  apply Rplus_le_compat_r. apply Rmult_le_compat_l; [exact Halpha|]. lra.
Qed.

End Schedule_properties.

(** Without warmup the schedule starts at the peak. *)
Lemma scheduler_without_warmup (config : ExperimentConfig) :
  warmup_steps config = 0%Z ->
  (0 < lr_decay_steps config)%Z ->
  learning_rate config <> 0%R ->
  exists sched : Schedule,
    scheduler config = Ok sched /\ sched 0%Z = learning_rate config.
Proof.
  intros Hw Hd Hp.
  unfold scheduler, warmup_cosine_decay_schedule, cosine_decay_schedule.
  destruct (Z.leb_spec (lr_decay_steps config - warmup_steps config) 0) as [H|H];
    [lia|].
  cbn [bind]. eexists. split; [reflexivity|].
  unfold join_schedules. rewrite Hw.
  destruct (Z.ltb_spec 0 0) as [?|_]; [lia|].
  change (0 - 0)%Z with 0%Z.
  replace (Z.min 0 (lr_decay_steps config - 0)) with 0%Z by lia.
  replace (PI * 0 / IZR (lr_decay_steps config - 0))%R with 0%R
    by (unfold Rdiv; ring).
  rewrite cos_0. field. exact Hp.
Qed.

(** C2, as stated, fails: [train] builds its scheduler from any
    configuration, and the shape holds only for some.  Without warmup
    ([warmup_steps = 0]) the scheduler gives the peak at step 0, not 0.
    When the decay ends with the warmup ([lr_decay_steps <= warmup_steps])
    there is no schedule: optax raises.  When the minimum lies above the
    peak, the rate goes up in the decay phase. *)
Lemma scheduler_shape_needs_well_formed_config :
  (exists sched : Schedule,
      scheduler no_warmup_config = Ok sched /\
      sched 0%Z = learning_rate no_warmup_config /\
      sched 0%Z <> 0%R) /\
  scheduler late_warmup_config
  = Raise (ValueError "The cosine_decay_schedule requires positive decay_steps!") /\
  (exists sched : Schedule,
      scheduler rising_config = Ok sched /\
      (warmup_steps rising_config <= 1 <= 2)%Z /\
      (sched 1%Z < sched 2%Z)%R).
Proof.
  split; [|split].
  - destruct (scheduler_without_warmup no_warmup_config) as [sched [E E0]];
      [reflexivity | simpl; lia | simpl; lra |].
    exists sched. split; [exact E|]. split; [exact E0|].
    rewrite E0. simpl. lra.
  - reflexivity.
  - assert (Hw : (0 < warmup_steps rising_config)%Z) by (simpl; lia).
    assert (Hd : (warmup_steps rising_config < lr_decay_steps rising_config)%Z)
      by (simpl; lia).
    assert (Hp : (0 < learning_rate rising_config)%R) by (simpl; lra).
    unfold scheduler. rewrite (schedule_is_lr _ _ _ _ Hd).
    eexists. split; [reflexivity|]. split; [simpl; lia|].
    rewrite !(joined_is_lr _ _ _ _ Hw).
    pose proof (lr_at_warmup _ (min_lr rising_config) _ _ Hd Hp) as E1.
    pose proof (lr_after_decay _ (min_lr rising_config) _ _ Hw Hd Hp 2%Z
                  ltac:(simpl; lia)) as E2.
    change (warmup_steps rising_config) with 1%Z in E1 at 2.
    rewrite E1, E2. simpl. lra.
Qed.

(** C2, amended.  For a configuration with [0 < warmup_steps < lr_decay_steps] and
    [min_lr <= learning_rate], [0 < learning_rate], the scheduler of [train]
    is built and gives: 0 at step 0; the peak [learning_rate] at step
    [warmup_steps]; the minimum [min_lr] at step
    [warmup_steps + lr_decay_steps] and at every later step (indeed from
    step [lr_decay_steps] on); it is non-decreasing over the steps 0 to
    [warmup_steps] and non-increasing from step [warmup_steps] on.
    Learning rates are real numbers here. *)
Theorem scheduler_warmup_cosine_shape :
  forall config : ExperimentConfig,
    (0 < warmup_steps config)%Z ->
    (warmup_steps config < lr_decay_steps config)%Z ->
    (0 < learning_rate config)%R ->
    (min_lr config <= learning_rate config)%R ->
    exists sched : Schedule,
      scheduler config = Ok sched /\
      sched 0%Z = 0%R /\
      sched (warmup_steps config) = learning_rate config /\
      sched (warmup_steps config + lr_decay_steps config)%Z = min_lr config /\
      (forall step : Z,
         (lr_decay_steps config <= step)%Z -> sched step = min_lr config) /\
      (forall s t : Z,
         (0 <= s)%Z -> (s <= t)%Z -> (t <= warmup_steps config)%Z ->
         (sched s <= sched t)%R) /\
      (forall s t : Z,
         (warmup_steps config <= s)%Z -> (s <= t)%Z -> (sched t <= sched s)%R).
Proof.
  intros config Hw Hd Hp Hf.
  unfold scheduler. rewrite (schedule_is_lr _ _ _ _ Hd).
  eexists. split; [reflexivity|].
  rewrite !(joined_is_lr _ _ _ _ Hw).
  repeat split.
  - apply lr_step_0. exact Hw.
  - apply lr_at_warmup; assumption.
  - apply lr_after_decay; try assumption. lia.
  - intros step Hs. rewrite (joined_is_lr _ _ _ _ Hw).
    apply lr_after_decay; assumption.
  - intros s t _ Hst Ht. rewrite !(joined_is_lr _ _ _ _ Hw).
    apply lr_warmup_monotone; assumption.
  - intros s t Hs Hst. rewrite !(joined_is_lr _ _ _ _ Hw).
    apply lr_decay_monotone; assumption.
Qed.

Lemma scheduler_warmup_cosine_shape_witness :
  exists sched : Schedule,
    scheduler openwebtext_config = Ok sched /\
    sched 0%Z = 0%R /\
    sched 5000%Z = (6 / 10000)%R /\
    sched (5000 + 600000)%Z = (1 / 100000)%R /\
    (forall step : Z, (600000 <= step)%Z -> sched step = (1 / 100000)%R) /\
    (forall s t : Z,
       (0 <= s)%Z -> (s <= t)%Z -> (t <= 5000)%Z -> (sched s <= sched t)%R) /\
    (forall s t : Z, (5000 <= s)%Z -> (s <= t)%Z -> (sched t <= sched s)%R).
Proof.
  apply (scheduler_warmup_cosine_shape openwebtext_config); simpl; lia || lra.
Defined.

(** ** The optimizer *)

Section Optimizer_properties.

Import Optax.
Local Open Scope R_scope.

Variable position : Type.
Variable positions : list position.

(** X20.  The optimizer of the single-device script, which has no
    clipping: the update of the four transformations, on a gradient [g]: Adam, then the decayed weights added to the Adam
    direction, then the learning rate of the current count, then the sign. *)
Lemma adam_decay_schedule_sign config sched (g : Tree position)
  (adam : ScaleByAdamState position) (sch : ScaleByScheduleState)
  (params : Tree position) :
  let t := safe_int32_increment (adam_count adam) in
  let m := first_moment g (adam_mu adam) in
  let v := second_moment (beta2 config) g (adam_nu adam) in
  let out :=
    update (optimizer_single position config sched) g
      (adam, (mkEmptyState, (sch, mkEmptyState))) params in
  (forall i,
      fst out i
      = - (sched (count sch)
           * (adam_direction (beta2 config) t m v i + weight_decay config * params i)))
  /\ adam_count (fst (snd out)) = t
  /\ (forall i, adam_mu (fst (snd out)) i = m i)
  /\ (forall i, adam_nu (fst (snd out)) i = v i)
  /\ count (fst (snd (snd (snd out)))) = safe_int32_increment (count sch).
Proof.
  cbv zeta. simpl.
  unfold tree_map, tree_map2, bias_correction, update_moment, tree_map, tree_map2,
    adam_direction, first_moment, second_moment, adam_b1, adam_eps, adam_eps_root.
  repeat match goal with |- _ /\ _ => split end; try reflexivity;
    intros i; simpl; unfold Rdiv; try destruct (Rlt_dec _ _);
    rewrite ?Rmult_1_r; ring.
Qed.

(** C9.  One update of the optimizer of [train], from a gradient, the state
    of the chain and the parameters.  The gradient is first clipped to
    global norm 1; the clipped gradient feeds the two moments, with the
    first decay fixed at 0.9 and the second the configured [beta2]; the
    weight decay times the parameter is added to the Adam direction, not to
    the gradient; the sum is scaled by the schedule at the count held before
    this update; the sign is flipped last.  Both counts go up by one. *)
Theorem optimizer_update_order :
  forall (config : ExperimentConfig) (sched : Schedule)
         (grad : Tree position) (state : ChainState position)
         (params : Tree position),
    let adam := adam_state state in
    let sch := schedule_state state in
    let c := clipped positions grad in
    let t := safe_int32_increment (adam_count adam) in
    let m := first_moment c (adam_mu adam) in
    let v := second_moment (beta2 config) c (adam_nu adam) in
    let out := update (optimizer positions config sched) grad state params in
    (forall i,
        fst out i
        = - (sched (count sch)
             * (adam_direction (beta2 config) t m v i
                + weight_decay config * params i)))
    /\ adam_count (adam_state (snd out)) = t
    /\ (forall i, adam_mu (adam_state (snd out)) i = m i)
    /\ (forall i, adam_nu (adam_state (snd out)) i = v i)
    /\ count (schedule_state (snd out)) = safe_int32_increment (count sch).
Proof.
  intros config sched grad [e1 [adam [e2 [sch e3]]]] params.
  cbv zeta. unfold adam_state, schedule_state. simpl.
  unfold tree_map, tree_map2, bias_correction, update_moment, tree_map, tree_map2,
    adam_direction, first_moment, second_moment, clipped, select_lt,
    adam_b1, adam_eps, adam_eps_root.
  repeat match goal with |- _ /\ _ => split end; try reflexivity;
    intros i; simpl; unfold Rdiv; try destruct (Rlt_dec _ _);
    rewrite ?Rmult_1_r; ring.
Qed.

End Optimizer_properties.

(** ** Gradient accumulation *)

Section Accumulation_properties.

Import Step.
Local Open Scope R_scope.

Variable Params Static : Type.
Variable position : Type.
Variable row_losses : Params -> Static -> list Z -> list Z -> option KeyArray -> list R.
Variable grad : (Params -> R) -> Params -> Grad position.

(** What is asked of automatic differentiation: the gradient depends on the
    function differentiated only, and is linear in it. *)
Hypothesis grad_ext :
  forall f g : Params -> R,
    (forall q, f q = g q) -> forall p i, grad f p i = grad g p i.
Hypothesis grad_plus :
  forall (f g : Params -> R) p i,
    grad (fun q => f q + g q) p i = grad f p i + grad g p i.
Hypothesis grad_scal :
  forall (c : R) (f : Params -> R) p i,
    grad (fun q => c * f q) p i = c * grad f p i.

(** What is asked of the model: one loss per token of the row, and a forward
    pass that does not look at its key (no dropout). *)
Hypothesis row_losses_length :
  forall p s xr yr k, length (row_losses p s xr yr k) = length xr.
Hypothesis row_losses_key :
  forall p s xr yr k k', row_losses p s xr yr k = row_losses p s xr yr k'.

Local Abbreviation loss_fn := (loss_fn row_losses).
Local Abbreviation accumulate := (accumulate row_losses grad).
Local Abbreviation batch_losses := (batch_losses row_losses).

Lemma sum_app (l l' : list R) : sum (l ++ l') = sum l + sum l'.
Proof.
  induction l as [|a l IH]; simpl.
  - lra.
  - unfold sum in *. simpl. rewrite IH. lra.
Qed.

Lemma keyed_losses p s (xy : list (list Z * list Z)) :
  forall keys : list (option KeyArray),
    (length xy <= length keys)%nat ->
    flat_map (fun '(xr, yr, k) => row_losses p s xr yr k) (combine xy keys)
    = flat_map (fun '(xr, yr) => row_losses p s xr yr None) xy.
Proof.
  induction xy as [|[xr yr] xy IH]; intros keys Hlen; simpl.
  - reflexivity.
  - destruct keys as [|k keys]; simpl in *; [lia|].
    rewrite IH by lia. rewrite (row_losses_key p s xr yr k None). reflexivity.
Qed.

Lemma length_row_keys n key : length (row_keys n key) = n.
Proof.
  destruct key; simpl.
  - unfold split. rewrite !length_map, length_seq. reflexivity.
  - apply repeat_length.
Qed.

(** The loss of a batch is the mean of its token losses, whatever the key. *)
Lemma loss_fn_mean p s x y key :
  loss_fn p s x y key = mean (batch_losses p s x y).
Proof.
  unfold Step.loss_fn, Step.batch_losses. rewrite keyed_losses; [reflexivity|].
  rewrite length_row_keys, length_combine. apply Nat.le_min_l.
Qed.

Lemma length_batch_losses p s B T x y :
  shape2 B T x -> shape2 B T y -> length (batch_losses p s x y) = (B * T)%nat.
Proof.
  unfold shape2, Step.batch_losses. intros [Hx Fx] [Hy _]. revert B y Hx Hy.
  induction Fx as [|xr x Hr _ IH]; intros B y Hx Hy; simpl in *.
  - subst B. reflexivity.
  - destruct y as [|yr y]; simpl in *; [subst B; discriminate|].
    destruct B as [|B]; [discriminate|].
    rewrite length_app, row_losses_length, Hr, (IH B y) by lia. reflexivity.
Qed.

Lemma combine_app {A B : Type} (l1 l2 : list A) (m1 m2 : list B) :
  length l1 = length m1 ->
  combine (l1 ++ l2) (m1 ++ m2) = combine l1 m1 ++ combine l2 m2.
Proof.
  revert m1. induction l1 as [|a l1 IH]; intros [|b m1] H; simpl in *;
    try discriminate; [reflexivity|].
  rewrite IH by lia. reflexivity.
Qed.

(** The token losses of the microbatches put one after the other are the
    token losses of the microbatches, one after the other. *)
Lemma batch_losses_concat p s G B T :
  forall x y,
    shape3 G B T x -> shape3 G B T y ->
    batch_losses p s (full_batch x) (full_batch y)
    = flat_map (fun '(xg, yg) => batch_losses p s xg yg) (combine x y).
Proof.
  unfold shape3, full_batch. intros x y [Hx Fx] [Hy Fy]. revert G y Hx Hy Fy.
  induction Fx as [|xg x Hg _ IH]; intros G y Hx Hy Fy; simpl in *.
  - reflexivity.
  - destruct y as [|yg y]; simpl in *; [subst G; discriminate|].
    destruct G as [|G]; [discriminate|].
    inversion Fy as [|? ? Hyg Fy']; subst.
    unfold Step.batch_losses at 1.
    rewrite combine_app by (destruct Hg as [-> _]; destruct Hyg as [-> _]; reflexivity).
    rewrite flat_map_app. f_equal.
    apply (IH G y); try lia. exact Fy'.
Qed.

Lemma sum_flat_map {A : Type} (f : A -> list R) (l : list A) :
  sum (flat_map f l) = sum (map (fun a => sum (f a)) l).
Proof.
  induction l as [|a l IH]; simpl.
  - reflexivity.
  - rewrite sum_app, IH. reflexivity.
Qed.

Lemma length_flat_map_const {A B : Type} (f : A -> list B) (l : list A) (n : nat) :
  Forall (fun a => length (f a) = n) l ->
  length (flat_map f l) = (length l * n)%nat.
Proof.
  induction 1 as [|a l Ha _ IH]; simpl.
  - reflexivity.
  - rewrite length_app, Ha, IH. reflexivity.
Qed.

Lemma sum_map_scal {A : Type} (c : R) (f : A -> R) (l : list A) :
  sum (map (fun a => f a * c) l) = sum (map f l) * c.
Proof.
  induction l as [|a l IH]; unfold sum in *; simpl.
  - lra.
  - rewrite IH. lra.
Qed.

Lemma Forall_combine_shape2 B T :
  forall x y : list (list (list Z)),
    Forall (shape2 B T) x -> Forall (shape2 B T) y ->
    Forall (fun xy => shape2 B T (fst xy) /\ shape2 B T (snd xy)) (combine x y).
Proof.
  intros x y Fx. revert y.
  induction Fx as [|xg x Hg _ IH]; intros y Fy; simpl.
  - constructor.
  - destruct y as [|yg y]; [constructor|].
    inversion Fy; subst. constructor; [split; assumption|]. apply IH. assumption.
Qed.

(** The loss of the full batch is the mean of the losses of its
    microbatches. *)
Lemma loss_fn_full_batch p s G B T x y key :
  (1 <= G)%nat -> (1 <= B)%nat -> (1 <= T)%nat ->
  shape3 G B T x -> shape3 G B T y ->
  loss_fn p s (full_batch x) (full_batch y) key
  = sum (map (fun '(xg, yg) => mean (batch_losses p s xg yg)) (combine x y)) / INR G.
Proof.
  intros HG HB HT Sx Sy.
  rewrite loss_fn_mean, (batch_losses_concat p s G B T x y Sx Sy).
  destruct Sx as [Hx Fx]. destruct Sy as [Hy Fy].
  pose proof (Forall_combine_shape2 B T x y Fx Fy) as Fxy.
  assert (Hlen : length (combine x y) = G)
    by (rewrite length_combine, Hx, Hy; apply Nat.min_id).
  unfold mean at 1.
  rewrite (length_flat_map_const _ _ (B * T)%nat).
  2:{ eapply Forall_impl; [|exact Fxy]. intros [xg yg] [H1 H2]. simpl in *.
      apply length_batch_losses; assumption. }
  rewrite sum_flat_map, Hlen.
  assert (Hmeans :
            map (fun '(xg, yg) => mean (batch_losses p s xg yg)) (combine x y)
            = map (fun a => (let '(xg, yg) := a in sum (batch_losses p s xg yg))
                            * / INR (B * T)) (combine x y)).
  { apply map_ext_Forall. eapply Forall_impl; [|exact Fxy].
    intros [xg yg] [H1 H2]. simpl in *. unfold mean.
    rewrite (length_batch_losses p s B T xg yg H1 H2). reflexivity. }
  rewrite Hmeans, sum_map_scal.
  assert (HG' : 0 < INR G) by (apply lt_0_INR; lia).
  assert (HBT : 0 < INR (B * T)) by (apply lt_0_INR; nia).
  rewrite mult_INR.
  replace (map (fun a : list (list Z) * list (list Z) =>
                  sum (let '(xg, yg) := a in batch_losses p s xg yg)) (combine x y))
    with (map (fun a : list (list Z) * list (list Z) =>
                 let '(xg, yg) := a in sum (batch_losses p s xg yg)) (combine x y))
    by (apply map_ext; intros [xg yg]; reflexivity).
  field. split; lra.
Qed.

Lemma grad_zero p i : grad (fun _ => 0) p i = 0.
Proof.
  rewrite (grad_ext (fun _ => 0) (fun q => 0 * (fun _ => 0) q)) by (intros q; lra).
  rewrite grad_scal. lra.
Qed.

(** The gradient of a finite sum is the sum of the gradients. *)
Lemma grad_sum (fs : list (Params -> R)) p i :
  grad (fun q => sum (map (fun f => f q) fs)) p i
  = sum (map (fun f => grad f p i) fs).
Proof.
  induction fs as [|f fs IH].
  - apply grad_zero.
  - change (grad (fun q => f q + sum (map (fun f0 => f0 q) fs)) p i
            = grad f p i + sum (map (fun f0 => grad f0 p i) fs)).
    rewrite grad_plus, IH. reflexivity.
Qed.

Lemma map_combine_fst {A K B : Type} (F : A -> B) (l : list A) :
  forall keys : list K,
    (length l <= length keys)%nat ->
    map (fun ak => F (fst ak)) (combine l keys) = map F l.
Proof.
  induction l as [|a l IH]; intros [|k keys] H; simpl in *;
    try reflexivity; try lia.
  rewrite IH by lia. reflexivity.
Qed.

(** What the scan of [step] leaves in its carry: the losses and the
    gradients of the microbatches, added up on top of what it started from. *)
Lemma scan_carry p s (l : list (list (list Z) * list (list Z) * KeyArray)) :
  forall init : R * Grad position,
    fst (fold_left (accum_loss_grad row_losses grad p s) l init)
    = fst init
      + sum (map (fun a => mean (batch_losses p s (fst (fst a)) (snd (fst a)))) l)
    /\ forall i,
        snd (fold_left (accum_loss_grad row_losses grad p s) l init) i
        = sum (map (fun a =>
                      grad (fun q => mean (batch_losses q s (fst (fst a)) (snd (fst a))))
                        p i) l)
          + snd init i.
Proof.
  induction l as [|[[xg yg] kg] l IH]; intros [l0 g0].
  - simpl. split; [lra|]. intros i. unfold sum. simpl. lra.
  - cbn [fold_left]. destruct (IH (accum_loss_grad row_losses grad p s (l0, g0) (xg, yg, kg)))
      as [IHl IHg].
    split.
    + rewrite IHl. cbn [accum_loss_grad value_and_grad_loss_fn fst snd map].
      rewrite loss_fn_mean. unfold sum. simpl. lra.
    + intros i. rewrite IHg.
      cbn [accum_loss_grad value_and_grad_loss_fn fst snd map].
      unfold Optax.tree_map2.
      rewrite (grad_ext (fun q => loss_fn q s xg yg (Some kg))
                 (fun q => mean (batch_losses q s xg yg)))
        by (intros q; apply loss_fn_mean).
      unfold sum. simpl. lra.
Qed.

(** C1, amended.  In exact arithmetic, for a gradient taken by a linear operator and
    a forward pass that ignores its key: for every accumulation factor
    [G >= 1] and every input of shape (G, B, T) with [B, T >= 1], the
    accumulation of [step] returns, and the loss and the gradient it returns
    (the sums over the [G] microbatches, both divided by [G]) are the loss
    and the gradient of [loss_fn] on the [G * B] rows in one pass; for
    [G = 1] this is [loss_fn] on the one microbatch. *)
Theorem accumulation_equals_full_batch :
  forall (G B T : nat) (model_params : Params) (model_static : Static)
         (x y : list (list (list Z))) (key : KeyArray) (key' : option KeyArray),
    (1 <= G)%nat -> (1 <= B)%nat -> (1 <= T)%nat ->
    shape3 G B T x -> shape3 G B T y ->
    exists (loss : R) (g : Grad position),
      accumulate G model_params model_static x y key = Ok (loss, g) /\
      loss = fst (value_and_grad_loss_fn row_losses grad model_params model_static
                    (full_batch x) (full_batch y) key') /\
      (forall i,
          g i = snd (value_and_grad_loss_fn row_losses grad model_params model_static
                       (full_batch x) (full_batch y) key') i) /\
      (G = 1%nat ->
       forall x0 y0, x = [x0] -> y = [y0] ->
         loss = loss_fn model_params model_static x0 y0 key' /\
         forall i,
           g i = grad (fun q => loss_fn q model_static x0 y0 key') model_params i).
Proof.
  intros G B T p s x y key key' HG HB HT Sx Sy.
  assert (HG' : 0 < INR G) by (apply lt_0_INR; lia).
  pose proof Sx as [Hx _]. pose proof Sy as [Hy _].
  unfold Step.accumulate, scan.
  assert (Hk : length (split key G) = G)
    by (unfold split; rewrite length_map, length_seq; reflexivity).
  rewrite Hx, Hy, Hk, Nat.eqb_refl. cbn [andb bind].
  set (l := combine (combine x y) (split key G)).
  destruct (scan_carry p s l (0, fun _ => 0)) as [Hl Hg].
  destruct (fold_left (accum_loss_grad row_losses grad p s) l (0, fun _ => 0))
    as [lsum gsum] eqn:E.
  cbn [fst snd] in Hl, Hg.
  assert (Hxy : (length (combine x y) <= length (split key G))%nat)
    by (rewrite length_combine, Hx, Hy, Hk, Nat.min_id; apply Nat.le_refl).
  assert (Hloss : forall q,
             loss_fn q s (full_batch x) (full_batch y) key'
             = / INR G
               * sum (map (fun f => f q)
                        (map (fun a q' => mean (batch_losses q' s (fst a) (snd a)))
                           (combine x y)))).
  { intros q. rewrite (loss_fn_full_batch q s G B T x y key' HG HB HT Sx Sy).
    rewrite map_map.
    replace (map (fun a => mean (batch_losses q s (fst a) (snd a))) (combine x y))
      with (map (fun '(xg, yg) => mean (batch_losses q s xg yg)) (combine x y))
      by (apply map_ext; intros [xg yg]; reflexivity).
    unfold Rdiv. ring. }
  assert (Hlsum : lsum = sum (map (fun a => mean (batch_losses p s (fst a) (snd a)))
                                (combine x y))).
  { rewrite Hl. unfold l.
    rewrite (map_combine_fst (fun a => mean (batch_losses p s (fst a) (snd a)))
               (combine x y) (split key G) Hxy). lra. }
  assert (Hgsum : forall i,
             gsum i = sum (map (fun a =>
                                  grad (fun q => mean (batch_losses q s (fst a) (snd a))) p i)
                             (combine x y))).
  { intros i. rewrite Hg. unfold l.
    rewrite (map_combine_fst
               (fun a => grad (fun q => mean (batch_losses q s (fst a) (snd a))) p i)
               (combine x y) (split key G) Hxy). lra. }
  assert (Hfull_loss : lsum / INR G
                       = loss_fn p s (full_batch x) (full_batch y) key').
  { rewrite Hloss, map_map, Hlsum. unfold Rdiv. ring. }
  assert (Hfull_grad : forall i,
             gsum i / INR G
             = grad (fun q => loss_fn q s (full_batch x) (full_batch y) key') p i).
  { intros i.
    rewrite (grad_ext _ _ Hloss), grad_scal, grad_sum, map_map, Hgsum.
    unfold Rdiv. ring. }
  exists (lsum / INR G), (Optax.tree_map (fun v => v / INR G) gsum).
  split; [reflexivity|]. split; [exact Hfull_loss|]. split.
  - intros i. unfold Optax.tree_map. cbn [value_and_grad_loss_fn snd].
    apply Hfull_grad.
  - intros _ x0 y0 -> ->. unfold full_batch in *. simpl in *.
    rewrite !app_nil_r in *. split; [exact Hfull_loss|].
    intros i. unfold Optax.tree_map. apply Hfull_grad.
Qed.

End Accumulation_properties.

(** The gradient of the examples is a linear operator, and the model with
    dropout gives one loss per token: all that separates it from the
    models of the theorem above is that its forward pass reads its key. *)
Lemma toy_grad_linear :
  (forall f g : R -> R,
      (forall q, f q = g q) -> forall p i, toy_grad f p i = toy_grad g p i) /\
  (forall (f g : R -> R) p i,
      toy_grad (fun q => f q + g q)%R p i = (toy_grad f p i + toy_grad g p i)%R) /\
  (forall (c : R) (f : R -> R) p i,
      toy_grad (fun q => c * f q)%R p i = (c * toy_grad f p i)%R) /\
  (forall p s xr yr k, length (dropout_row_losses p s xr yr k) = length xr).
Proof.
  repeat match goal with |- _ /\ _ => split end.
  - intros f g H p i. unfold toy_grad. rewrite !H. reflexivity.
  - intros f g p i. unfold toy_grad. ring.
  - intros c f p i. unfold toy_grad. ring.
  - intros p s xr yr k. apply length_map.
Qed.

(** C1, as stated, fails for a model with dropout.  [step] splits its key
    into one key per microbatch (line 84) and [loss_fn] splits that into
    one key per row (line 65), so the rows of the accumulated pass get the
    keys [split(split(key, G)[g], B)[b]], while one pass over the [G * B]
    rows hands them [split(key', G * B)[i]], whatever key it is given, or
    no key at all.  With two microbatches of one row each and the dropout
    above, at parameter 1: the accumulated loss and gradient are 5, those
    of one pass are 3/2 under any key and 5/2 without a key. *)
Lemma accumulation_differs_with_dropout :
  exists (loss : R) (g : Step.Grad unit),
    Step.accumulate dropout_row_losses toy_grad 2 1%R tt toy_x toy_y (PRNGKey 0)
    = Ok (loss, g) /\
    loss = 5%R /\
    g tt = 5%R /\
    (forall key' : KeyArray,
        fst (Step.value_and_grad_loss_fn dropout_row_losses toy_grad 1%R tt
               (Step.full_batch toy_x) (Step.full_batch toy_y) (Some key'))
        = (3 / 2)%R /\
        snd (Step.value_and_grad_loss_fn dropout_row_losses toy_grad 1%R tt
               (Step.full_batch toy_x) (Step.full_batch toy_y) (Some key')) tt
        = (3 / 2)%R) /\
    fst (Step.value_and_grad_loss_fn dropout_row_losses toy_grad 1%R tt
           (Step.full_batch toy_x) (Step.full_batch toy_y) None)
    = (5 / 2)%R /\
    snd (Step.value_and_grad_loss_fn dropout_row_losses toy_grad 1%R tt
           (Step.full_batch toy_x) (Step.full_batch toy_y) None) tt
    = (5 / 2)%R.
Proof.
  eexists. eexists. split; [reflexivity|].
  repeat match goal with |- _ /\ _ => split end; try intros key';
    try match goal with |- _ /\ _ => split end;
    unfold Step.value_and_grad_loss_fn; cbn [fst snd];
    unfold Optax.tree_map, Optax.tree_map2, toy_grad, Step.loss_fn, Step.mean,
      Step.sum, dropout_row_losses, dropout_mask;
    simpl; lra.
Qed.

Lemma accumulation_equals_full_batch_witness :
  exists (loss : R) (g : Step.Grad unit),
    Step.accumulate toy_row_losses toy_grad 2 2%R tt toy_x toy_y (PRNGKey 0)
    = Ok (loss, g) /\
    loss = fst (Step.value_and_grad_loss_fn toy_row_losses toy_grad 2%R tt
                  (Step.full_batch toy_x) (Step.full_batch toy_y) (Some (PRNGKey 1))) /\
    (forall i,
        g i = snd (Step.value_and_grad_loss_fn toy_row_losses toy_grad 2%R tt
                     (Step.full_batch toy_x) (Step.full_batch toy_y)
                     (Some (PRNGKey 1))) i) /\
    (2 = 1 ->
     forall x0 y0, toy_x = [x0] -> toy_y = [y0] ->
       loss = Step.loss_fn toy_row_losses 2%R tt x0 y0 (Some (PRNGKey 1)) /\
       forall i,
         g i = toy_grad (fun q => Step.loss_fn toy_row_losses q tt x0 y0
                                    (Some (PRNGKey 1))) 2%R i).
Proof.
  apply (accumulation_equals_full_batch R unit unit toy_row_losses toy_grad)
    with (B := 1) (T := 2).
  - intros f g H p i. unfold toy_grad. rewrite !H. reflexivity.
  - intros f g p i. unfold toy_grad. ring.
  - intros c f p i. unfold toy_grad. ring.
  - intros p s xr yr k. unfold toy_row_losses. apply length_map.
  - intros p s xr yr k k'. reflexivity.
  - lia.
  - lia.
  - lia.
  - repeat constructor.
  - repeat constructor.
Defined.

(** ** The batch sampler: windows, shapes and the generator *)

Lemma skipn_nth_error {A : Type} (l : list A) (k : nat) (v : A) :
  nth_error l k = Some v -> skipn k l = v :: skipn (S k) l.
Proof.
  revert l. induction k as [|k IH]; intros [|a l] H; simpl in *; try discriminate.
  - injection H as ->. reflexivity.
  - apply IH. exact H.
Qed.

Lemma window_cons (data : list Z) (k n : nat) (v : Z) :
  nth_error data k = Some v ->
  window data k (S n) = v :: window data (S k) n.
Proof.
  intros H. unfold window. rewrite (skipn_nth_error _ _ _ H). reflexivity.
Qed.

Lemma length_window (data : list Z) (k n : nat) :
  k + n <= length data -> length (window data k n) = n.
Proof.
  intros H. unfold window. rewrite length_firstn, length_skipn. lia.
Qed.

(** Taking the indices [i + s, ..., i + s + n - 1] gives the window that
    starts at [i + s], as long as it lies within the data. *)
Lemma take_window (data : list Z) (i : Z) (n : nat) :
  forall s : nat,
    (0 <= i)%Z ->
    Z.to_nat i + s + n <= length data ->
    take data (map (fun j => (j + i)%Z) (arange s (s + n)))
    = Ok (window data (Z.to_nat i + s) n).
Proof.
  unfold take, arange.
  induction n as [|n IH]; intros s Hi Hlen.
  - replace (s + 0 - s) with 0 by lia. reflexivity.
  - replace (s + S n - s) with (S n) by lia. cbn [seq map mapM].
    destruct (Z.ltb_spec (Z.of_nat s + i) 0) as [Hneg|_]; [lia|].
    replace (Z.to_nat (Z.of_nat s + i)) with (Z.to_nat i + s) by lia.
    destruct (nth_error data (Z.to_nat i + s)) as [v|] eqn:E.
    + cbn [bind]. specialize (IH (S s) Hi).
      replace (S s + n - S s) with n in IH by lia.
      rewrite IH by lia. cbn [bind].
      rewrite (window_cons _ _ n _ E).
      replace (Z.to_nat i + S s) with (S (Z.to_nat i + s)) by lia. reflexivity.
    + apply nth_error_None in E. lia.
Qed.

Lemma randint_in_range (low high : Z) (n : nat) (st : RandomState) :
  (low < high)%Z ->
  exists ix,
    randint low high n st = Ok (ix, advance st n) /\
    length ix = n /\
    Forall (fun i => (low <= i < high)%Z) ix.
Proof.
  intros H. unfold randint. destruct (Z.leb_spec high low) as [Hle|_]; [lia|].
  eexists. split; [reflexivity|]. split.
  - rewrite length_map, length_seq. reflexivity.
  - apply Forall_forall. intros i Hin. apply in_map_iff in Hin.
    destruct Hin as [k [<- _]].
    pose proof (Z.mod_pos_bound (draws st (given st + k)) (high - low)). lia.
Qed.

(** The rows [get_batch] cuts for a list of offsets. *)
Lemma rows_of_offsets (data : list Z) (block_size s : nat) (ix : list Z) :
  Forall (fun i => (0 <= i)%Z /\ Z.to_nat i + s + block_size <= length data) ix ->
  mapM (fun i => take data (map (fun j => (j + i)%Z) (arange s (s + block_size)))) ix
  = Ok (map (fun i => window data (Z.to_nat i + s) block_size) ix).
Proof.
  induction 1 as [|i ix [Hi Hlen] _ IH]; cbn [mapM map].
  - reflexivity.
  - rewrite (take_window data i block_size s Hi Hlen). cbn [bind].
    rewrite IH. reflexivity.
Qed.

Lemma length_chunks {A : Type} (g b : nat) (rows : list A) :
  length (chunks g b rows) = g.
Proof.
  revert rows. induction g as [|g IH]; intros rows; simpl.
  - reflexivity.
  - rewrite IH. reflexivity.
Qed.

Lemma chunks_spec {A : Type} (g b : nat) :
  forall rows : list A,
    length rows = g * b ->
    concat (chunks g b rows) = rows /\
    Forall (fun c => length c = b) (chunks g b rows).
Proof.
  induction g as [|g IH]; intros rows H; simpl in *.
  - destruct rows; [|discriminate]. split; [reflexivity|constructor].
  - destruct (IH (skipn b rows)) as [Hc Hf].
    { rewrite length_skipn. lia. }
    split.
    + rewrite Hc. apply firstn_skipn.
    + constructor; [|exact Hf]. rewrite length_firstn. lia.
Qed.

(** What [get_batch] does when a window fits the data: the offsets it
    draws, the rows it cuts, the generator it leaves. *)
Lemma get_batch_rows (data : list Z) (block_size batch_size : nat)
  (g_accum_iters : option nat) (st : RandomState) :
  block_size < length data ->
  exists offsets : list nat,
    length offsets = batch_size * or_1 g_accum_iters /\
    Forall (fun i => i + block_size < length data) offsets /\
    let x := map (fun i => window data i block_size) offsets in
    let y := map (fun i => window data (S i) block_size) offsets in
    get_batch data block_size batch_size g_accum_iters st
    = match g_accum_iters with
      | Some g =>
          x3 <- reshape g batch_size block_size x ;;
          y3 <- reshape g batch_size block_size y ;;
          Ok (Batch3 x3 y3, advance st (batch_size * or_1 g_accum_iters))
      | None => Ok (Batch2 x y, advance st (batch_size * or_1 g_accum_iters))
      end.
Proof.
  intros Hfit. unfold get_batch.
  destruct (randint_in_range 0 (Z.of_nat (length data) - Z.of_nat block_size)
              (batch_size * or_1 g_accum_iters) st) as [ix [Hr [Hlen Hix]]]; [lia|].
  rewrite Hr. cbn [bind].
  exists (map Z.to_nat ix). split; [rewrite length_map; exact Hlen|]. split.
  { apply Forall_map. eapply Forall_impl; [|exact Hix]. intros i Hi. simpl in Hi. lia. }
  pose proof (rows_of_offsets data block_size 0 ix) as Hx.
  pose proof (rows_of_offsets data block_size 1 ix) as Hy.
  replace (0 + block_size) with block_size in Hx by lia.
  replace (1 + block_size) with (block_size + 1) in Hy by lia.
  rewrite Hx, Hy.
  2,3: eapply Forall_impl; [|exact Hix]; intros i Hi; simpl in Hi; lia.
  cbn [bind]. rewrite !map_map.
  replace (map (fun i => window data (Z.to_nat i + 0) block_size) ix)
    with (map (fun i => window data (Z.to_nat i) block_size) ix)
    by (apply map_ext; intros i; f_equal; lia).
  replace (map (fun i => window data (Z.to_nat i + 1) block_size) ix)
    with (map (fun i => window data (S (Z.to_nat i)) block_size) ix)
    by (apply map_ext; intros i; f_equal; lia).
  destruct g_accum_iters as [g|]; reflexivity.
Qed.

Lemma reshape_rows (g b t : nat) (rows : list (list Z)) :
  length rows = b * g ->
  Forall (fun r => length r = t) rows ->
  exists x3,
    reshape g b t rows = Ok x3 /\
    concat x3 = rows /\
    Step.shape3 g b t x3.
Proof.
  intros Hlen Hrows. unfold reshape.
  replace (Nat.eqb (length rows * t) (g * b * t)) with true
    by (symmetry; apply Nat.eqb_eq; rewrite Hlen; lia).
  destruct (chunks_spec g b rows) as [Hc Hf]; [lia|].
  exists (chunks g b rows). split; [reflexivity|]. split; [exact Hc|].
  split; [apply length_chunks|].
  assert (Hall : Forall (Forall (fun r => length r = t)) (chunks g b rows)).
  { apply Forall_concat. rewrite Hc. exact Hrows. }
  apply Forall_forall. intros c Hin. split.
  - exact (proj1 (Forall_forall _ _) Hf c Hin).
  - exact (proj1 (Forall_forall _ _) Hall c Hin).
Qed.

Lemma or_1_positive (g : nat) : 1 <= g -> or_1 (Some g) = g.
Proof. destruct g; [lia|reflexivity]. Qed.

(** X1.  When the data is longer than a block, [get_batch] with a positive
    accumulation factor [g] returns: two arrays of shape
    (g, batch_size, block_size), and the generator moved on by
    [batch_size * g] draws.  No index is ever out of bounds. *)
Theorem get_batch_microbatch_shape :
  forall (data : list Z) (block_size batch_size g : nat) (st : RandomState),
    block_size < length data ->
    1 <= g ->
    exists x y : list (list (list Z)),
      get_batch data block_size batch_size (Some g) st
      = Ok (Batch3 x y, advance st (batch_size * g)) /\
      Step.shape3 g batch_size block_size x /\
      Step.shape3 g batch_size block_size y.
Proof.
  intros data block_size batch_size g st Hfit Hg.
  destruct (get_batch_rows data block_size batch_size (Some g) st Hfit)
    as [offsets [Hlen [Hin E]]].
  cbv zeta in E. rewrite (or_1_positive g Hg) in *.
  destruct (reshape_rows g batch_size block_size
              (map (fun i => window data i block_size) offsets))
    as [x3 [Ex [_ Sx]]].
  { rewrite length_map. exact Hlen. }
  { apply Forall_map. eapply Forall_impl; [|exact Hin].
    intros i Hi. apply length_window. simpl in Hi. lia. }
  destruct (reshape_rows g batch_size block_size
              (map (fun i => window data (S i) block_size) offsets))
    as [y3 [Ey [_ Sy]]].
  { rewrite length_map. exact Hlen. }
  { apply Forall_map. eapply Forall_impl; [|exact Hin].
    intros i Hi. apply length_window. simpl in Hi. lia. }
  exists x3, y3. rewrite E, Ex. cbn [bind]. rewrite Ey. cbn [bind].
  split; [reflexivity|]. split; assumption.
Qed.

Lemma get_batch_microbatch_shape_witness :
  exists x y : list (list (list Z)),
    get_batch tiny_train 2 2 (Some 2) np_state_a
    = Ok (Batch3 x y, advance np_state_a (2 * 2)) /\
    Step.shape3 2 2 2 x /\ Step.shape3 2 2 2 y.
Proof.
  apply get_batch_microbatch_shape; simpl; lia.
Defined.

Lemma window_shifted (data : list Z) (i n : nat) :
  i + n < length data ->
  tl (window data i n) = removelast (window data (S i) n).
Proof.
  intros H. unfold window. destruct n as [|n].
  - reflexivity.
  - rewrite removelast_firstn by (rewrite length_skipn; lia).
    destruct (nth_error data i) as [v|] eqn:E.
    + rewrite (skipn_nth_error _ _ _ E). reflexivity.
    + apply nth_error_None in E. lia.
Qed.

(** X2.  The targets are the inputs shifted by one token: every row of [x]
    is a window [data[i : i + block_size]] and the row of [y] at the same
    place is [data[i + 1 : i + 1 + block_size]], for an offset [i] with
    [i + block_size < len(data)]; so a row of [x] without its first token is
    the row of [y] without its last. *)
Theorem get_batch_targets_shifted :
  forall (data : list Z) (block_size batch_size g : nat) (st : RandomState),
    block_size < length data ->
    1 <= g ->
    exists (x y : list (list (list Z))) (st' : RandomState),
      get_batch data block_size batch_size (Some g) st = Ok (Batch3 x y, st') /\
      Forall2
        (fun xr yr =>
           (exists i : nat,
               i + block_size < length data /\
               xr = window data i block_size /\
               yr = window data (S i) block_size) /\
           tl xr = removelast yr)
        (concat x) (concat y).
Proof.
  intros data block_size batch_size g st Hfit Hg.
  destruct (get_batch_rows data block_size batch_size (Some g) st Hfit)
    as [offsets [Hlen [Hin E]]].
  cbv zeta in E. rewrite (or_1_positive g Hg) in *.
  destruct (reshape_rows g batch_size block_size
              (map (fun i => window data i block_size) offsets))
    as [x3 [Ex [Cx _]]].
  { rewrite length_map. exact Hlen. }
  { apply Forall_map. eapply Forall_impl; [|exact Hin].
    intros i Hi. apply length_window. simpl in Hi. lia. }
  destruct (reshape_rows g batch_size block_size
              (map (fun i => window data (S i) block_size) offsets))
    as [y3 [Ey [Cy _]]].
  { rewrite length_map. exact Hlen. }
  { apply Forall_map. eapply Forall_impl; [|exact Hin].
    intros i Hi. apply length_window. simpl in Hi. lia. }
  exists x3, y3, (advance st (batch_size * g)).
  rewrite E, Ex. cbn [bind]. rewrite Ey. cbn [bind]. split; [reflexivity|].
  rewrite Cx, Cy. clear - Hin.
  induction Hin as [|i offsets Hi _ IH]; simpl; constructor; [|exact IH].
  split.
  - exists i. repeat split. exact Hi.
  - apply window_shifted. exact Hi.
Qed.

Lemma get_batch_targets_shifted_witness :
  exists (x y : list (list (list Z))) (st' : RandomState),
    get_batch tiny_train 2 2 (Some 2) np_state_a = Ok (Batch3 x y, st') /\
    Forall2
      (fun xr yr =>
         (exists i : nat,
             i + 2 < length tiny_train /\
             xr = window tiny_train i 2 /\
             yr = window tiny_train (S i) 2) /\
         tl xr = removelast yr)
      (concat x) (concat y).
Proof.
  apply get_batch_targets_shifted; simpl; lia.
Defined.

(** X3.  When no window of [block_size + 1] tokens fits the data,
    [get_batch] of a non-empty batch raises the ValueError of
    [np.random.randint], with or without accumulation. *)
Theorem get_batch_data_too_short :
  forall (data : list Z) (block_size batch_size : nat)
         (g_accum_iters : option nat) (st : RandomState),
    length data <= block_size ->
    1 <= batch_size ->
    get_batch data block_size batch_size g_accum_iters st
    = Raise (ValueError "low >= high").
Proof.
  intros data block_size batch_size g_accum_iters st Hshort _.
  unfold get_batch, randint.
  destruct (Z.leb_spec (Z.of_nat (length data) - Z.of_nat block_size) 0) as [_|H];
    [reflexivity|lia].
Qed.

Lemma get_batch_data_too_short_witness :
  get_batch [1; 2; 3]%Z 3 2 (Some 2) np_state_a = Raise (ValueError "low >= high").
Proof.
  apply get_batch_data_too_short; simpl; lia.
Defined.

Lemma advance_advance (st : RandomState) (a b : nat) :
  advance (advance st a) b = advance st (a + b).
Proof. unfold advance. simpl. f_equal. lia. Qed.

Lemma advance_0 (st : RandomState) : advance st 0 = st.
Proof. destruct st. unfold advance. simpl. rewrite Nat.add_0_r. reflexivity. Qed.

(** The sum of numbers within bounds. *)
Lemma sum_bounds {A : Type} (f : A -> R) (lo hi : R) (l : list A) :
  (forall a, In a l -> (lo <= f a <= hi)%R) ->
  (INR (length l) * lo <= Step.sum (map f l) <= INR (length l) * hi)%R.
Proof.
  induction l as [|a l IH]; intros H.
  - unfold Step.sum. simpl. lra.
  - pose proof (H a (or_introl eq_refl)) as Ha.
    specialize (IH (fun b Hb => H b (or_intror Hb))).
    change (length (a :: l)) with (S (length l)). rewrite S_INR.
    unfold Step.sum in *. simpl. lra.
Qed.

(** The loop of [evaluate] over [n] batches: the batches are the ones
    [get_batch] cuts one after the other, each from the generator the one
    before left, and the total is what the loop started from plus the sum
    of their losses. *)
Lemma evaluate_loop_total (simple_loss : batch -> R) (data : list Z)
  (block_size batch_size : nat) :
  block_size < length data ->
  forall (n : nat) (st : RandomState) (tot : R),
    exists batches : list batch,
      length batches = n /\
      (forall (k : nat) (b : batch),
          nth_error batches k = Some b ->
          get_batch data block_size batch_size None (advance st (k * batch_size))
          = Ok (b, advance st (S k * batch_size))) /\
      evaluate_loop n simple_loss data block_size batch_size st tot
      = Ok ((tot + Step.sum (map simple_loss batches))%R,
            advance st (n * batch_size)) /\
      evaluate_batches n data block_size batch_size st
      = Ok (advance st (n * batch_size)).
Proof.
  intros Hfit. induction n as [|n IH]; intros st tot.
  - exists []. cbn [evaluate_loop evaluate_batches length map].
    rewrite advance_0. unfold Step.sum. cbn [fold_right]. rewrite Rplus_0_r.
    repeat split. intros [|k] b Hb; discriminate.
  - destruct (get_batch_rows data block_size batch_size None st Hfit)
      as [offsets [_ [_ E]]].
    cbv zeta in E. cbn [or_1] in E. rewrite Nat.mul_1_r in E.
    set (b0 := Batch2 (map (fun i => window data i block_size) offsets)
                 (map (fun i => window data (S i) block_size) offsets)) in E.
    destruct (IH (advance st batch_size) (tot + simple_loss b0)%R)
      as [batches [Hlen [Hget [Eloop Edraws]]]].
    exists (b0 :: batches).
    split; [simpl; rewrite Hlen; reflexivity|]. split; [|split].
    + intros [|k] b Hb.
      * injection Hb as <-. change (0 * batch_size) with 0. rewrite advance_0.
        replace (1 * batch_size) with batch_size by lia. exact E.
      * cbn [nth_error] in Hb. specialize (Hget k b Hb).
        rewrite !advance_advance in Hget.
        replace (S k * batch_size) with (batch_size + k * batch_size) by lia.
        replace (S (S k) * batch_size) with (batch_size + S k * batch_size) by lia.
        exact Hget.
    + cbn [evaluate_loop]. rewrite E. cbn [bind]. rewrite Eloop, advance_advance.
      replace (batch_size + n * batch_size) with (S n * batch_size) by lia.
      f_equal. f_equal. unfold Step.sum. cbn [map fold_right]. lra.
    + cbn [evaluate_batches]. rewrite E. cbn [bind]. rewrite Edraws, advance_advance.
      replace (batch_size + n * batch_size) with (S n * batch_size) by lia.
      reflexivity.
Qed.

(** X4.  [evaluate] on data longer than a block returns the mean of the
    losses of 200 batches: the batches [get_batch] cuts one after the
    other, the [k]-th from the generator [k * batch_size] draws on, their
    losses added up and the sum divided by 200.  So the result lies within
    any bounds that hold for the loss of each of these batches.  The
    generator of [np.random] is left [200 * batch_size] draws on, which is
    what the loop of [train] counts for an evaluation. *)
Theorem evaluate_mean_of_200 :
  forall (simple_loss : batch -> R) (data : list Z)
         (block_size batch_size : nat) (st : RandomState),
    block_size < length data ->
    exists batches : list batch,
      length batches = 200 /\
      (forall (k : nat) (b : batch),
          nth_error batches k = Some b ->
          get_batch data block_size batch_size None (advance st (k * batch_size))
          = Ok (b, advance st (S k * batch_size))) /\
      evaluate simple_loss data block_size batch_size st
      = Ok (Step.mean (map simple_loss batches), advance st (200 * batch_size)) /\
      Step.mean (map simple_loss batches)
      = (Step.sum (map simple_loss batches) / 200)%R /\
      (forall lo hi : R,
          (forall b, In b batches -> (lo <= simple_loss b <= hi)%R) ->
          (lo <= Step.mean (map simple_loss batches) <= hi)%R) /\
      evaluate_batches 200 data block_size batch_size st
      = Ok (advance st (200 * batch_size)).
Proof.
  intros simple_loss data block_size batch_size st Hfit.
  destruct (evaluate_loop_total simple_loss data block_size batch_size Hfit
              200 st 0%R) as [batches [Hlen [Hget [Eloop Edraws]]]].
  assert (H200 : INR 200 = 200%R) by (rewrite INR_IZR_INZ; reflexivity).
  assert (Hmean : Step.mean (map simple_loss batches)
                  = (Step.sum (map simple_loss batches) / 200)%R).
  { unfold Step.mean. rewrite length_map, Hlen, H200. reflexivity. }
  exists batches. split; [exact Hlen|]. split; [exact Hget|]. split; [|split; [|split]].
  - unfold evaluate. rewrite Eloop. cbn [bind]. rewrite Hmean, Rplus_0_l.
    reflexivity.
  - exact Hmean.
  - intros lo hi Hb. rewrite Hmean.
    pose proof (sum_bounds simple_loss lo hi batches Hb) as Hs.
    rewrite Hlen, H200 in Hs. lra.
  - exact Edraws.
Qed.

Lemma evaluate_mean_of_200_witness :
  exists batches : list batch,
    length batches = 200 /\
    (forall (k : nat) (b : batch),
        nth_error batches k = Some b ->
        get_batch tiny_val 2 2 None (advance np_state_a (k * 2))
        = Ok (b, advance np_state_a (S k * 2))) /\
    evaluate (fun _ => 1%R) tiny_val 2 2 np_state_a
    = Ok (Step.mean (map (fun _ => 1%R) batches), advance np_state_a (200 * 2)) /\
    Step.mean (map (fun _ : batch => 1%R) batches)
    = (Step.sum (map (fun _ : batch => 1%R) batches) / 200)%R /\
    (forall lo hi : R,
        (forall b, In b batches -> (lo <= 1 <= hi)%R) ->
        (lo <= Step.mean (map (fun _ : batch => 1%R) batches) <= hi)%R) /\
    evaluate_batches 200 tiny_val 2 2 np_state_a = Ok (advance np_state_a (200 * 2)).
Proof.
  apply (evaluate_mean_of_200 (fun _ => 1%R) tiny_val 2 2 np_state_a).
  simpl. lia.
Defined.

(** ** Random keys: every consumer gets a key of its own *)

Lemma above_depth (a x : KeyArray) : In a (above x) -> depth a <= depth x.
Proof.
  induction x as [s|p IH n i]; simpl; intros [<-|H]; simpl;
    try lia; try contradiction.
  specialize (IH H). lia.
Qed.

(** Among a key and the keys above it, the depth tells the key. *)
Lemma above_unique (a b x : KeyArray) :
  In a (above x) -> In b (above x) -> depth a = depth b -> a = b.
Proof.
  induction x as [s|p IH n i]; simpl.
  - intros [<-|[]] [<-|[]] _. reflexivity.
  - intros [<-|Ha] [<-|Hb] Hd.
    + reflexivity.
    + apply above_depth in Hb. simpl in Hd. lia.
    + apply above_depth in Ha. simpl in Hd. lia.
    + exact (IH Ha Hb Hd).
Qed.

Lemma derived_from_refl (x : KeyArray) : derived_from x x.
Proof. destruct x; left; reflexivity. Qed.

Lemma derived_from_trans (a b x : KeyArray) :
  derived_from a b -> derived_from b x -> derived_from a x.
Proof.
  unfold derived_from. intros Hab. induction x as [s|p IH n i]; simpl.
  - intros [<-|[]]. exact Hab.
  - intros [<-|Hb]; [exact Hab|]. right. exact (IH Hb).
Qed.

Lemma derived_from_split (k x : KeyArray) (n : nat) :
  In x (split k n) -> exists i, x = SplitKey k n i.
Proof.
  unfold split. intros H. apply in_map_iff in H. destruct H as [i [<- _]].
  exists i. reflexivity.
Qed.

Lemma derived_from_child (r k : KeyArray) (n i : nat) :
  derived_from r k -> derived_from r (SplitKey k n i).
Proof. intros H. right. exact H. Qed.

(** Two different keys from splits of one key have nothing below them in
    common. *)
Lemma siblings_disjoint (c x : KeyArray) (n m i j : nat) :
  i <> j ->
  derived_from (SplitKey c n i) x -> derived_from (SplitKey c m j) x -> False.
Proof.
  intros Hij Hi Hj.
  pose proof (above_unique _ _ _ Hi Hj eq_refl) as E.
  injection E as _ E'. contradiction.
Qed.

Lemma NoDup_split (k : KeyArray) (n : nat) : NoDup (split k n).
Proof.
  unfold split. apply NoDup_map_NoDup_ForallPairs; [|apply seq_NoDup].
  intros i j _ _ E. injection E as ->. reflexivity.
Qed.

(** Splitting every key of a list without repetition gives keys without
    repetition. *)
Lemma NoDup_split_all (l : list KeyArray) (n : nat) :
  NoDup l -> NoDup (flat_map (fun k => split k n) l).
Proof.
  induction 1 as [|k l Hk _ IH]; simpl.
  - constructor.
  - apply NoDup_app; [apply NoDup_split | exact IH |].
    intros x Hx Hin. apply derived_from_split in Hx. destruct Hx as [i ->].
    apply in_flat_map in Hin. destruct Hin as [k' [Hk' Hx]].
    apply derived_from_split in Hx. destruct Hx as [j E].
    injection E as -> _. contradiction.
Qed.

Lemma row_keys_derived (G B : nat) (key x : KeyArray) :
  In x (row_keys_of_step G B key) -> derived_from key x.
Proof.
  unfold row_keys_of_step. intros H. apply in_flat_map in H.
  destruct H as [kg [Hkg Hx]].
  apply derived_from_split in Hkg. destruct Hkg as [g ->].
  apply derived_from_split in Hx. destruct Hx as [b ->].
  right. right. apply derived_from_refl.
Qed.

Lemma NoDup_row_keys (G B : nat) (key : KeyArray) :
  NoDup (row_keys_of_step G B key).
Proof. apply NoDup_split_all, NoDup_split. Qed.

Lemma train_row_keys_step (G B n : nat) (key : KeyArray) :
  train_row_keys G B (S n) key
  = row_keys_of_step G B (SplitKey key 2 1)
      ++ train_row_keys G B n (SplitKey key 2 0).
Proof. reflexivity. Qed.

Lemma train_row_keys_derived (G B n : nat) :
  forall key x, In x (train_row_keys G B n key) -> derived_from key x.
Proof.
  induction n as [|n IH]; intros key x H.
  - contradiction.
  - rewrite train_row_keys_step in H. apply in_app_or in H. destruct H as [H|H].
    + apply row_keys_derived in H.
      apply (derived_from_trans key (SplitKey key 2 1)); [|exact H].
      right. apply derived_from_refl.
    + apply IH in H.
      apply (derived_from_trans key (SplitKey key 2 0)); [|exact H].
      right. apply derived_from_refl.
Qed.

Lemma NoDup_train_row_keys (G B n : nat) :
  forall key, NoDup (train_row_keys G B n key).
Proof.
  induction n as [|n IH]; intros key.
  - constructor.
  - rewrite train_row_keys_step.
    apply NoDup_app; [apply NoDup_row_keys | apply IH |].
    intros x Hx Hin. apply row_keys_derived in Hx.
    apply train_row_keys_derived in Hin.
    exact (siblings_disjoint key x 2 2 1 0 ltac:(discriminate) Hx Hin).
Qed.

Lemma train_row_keys_fresh (seed : Z) (G B n : nat) :
  NoDup (train_row_keys G B n (SplitKey (PRNGKey seed) 2 0)) /\
  forall x, In x (train_row_keys G B n (SplitKey (PRNGKey seed) 2 0)) ->
            ~ derived_from (SplitKey (PRNGKey seed) 2 1) x.
Proof.
  split.
  - apply NoDup_train_row_keys.
  - intros x Hin Hm. apply train_row_keys_derived in Hin.
    exact (siblings_disjoint (PRNGKey seed) x 2 2 0 1 ltac:(discriminate) Hin Hm).
Qed.

Lemma length_step_keys (n : nat) : forall key, length (step_keys n key) = n.
Proof.
  induction n as [|n IH]; intros key; simpl; [reflexivity|].
  rewrite IH. reflexivity.
Qed.

(** Without a checkpoint the run is the fresh run. *)
Lemma train_run_fresh config mngr model opt_state train_data val_data seed st :
  latest_step mngr = None ->
  train_run config mngr model opt_state train_data val_data seed st
  = train_consumes config train_data val_data seed st.
Proof.
  intros H. unfold train_run, train_consumes, restore_checkpoint.
  cbn [split2]. rewrite H. reflexivity.
Qed.

(** The keys [step] gets in a run are the first keys of the stream from the
    seed, one per step run, whatever step the run started at. *)
Lemma train_run_step_keys config mngr model opt_state train_data val_data seed st run :
  train_run config mngr model opt_state train_data val_data seed st = Ok run ->
  map step_key run = step_keys (length run) (SplitKey (PRNGKey seed) 2 0).
Proof.
  intros H. unfold train_run in H. cbn [split2] in H.
  destruct (restore_checkpoint mngr model opt_state) as [[[m o] first_step]|e];
    cbn [bind] in H; [|discriminate].
  pose proof (train_loop_step_keys _ _ _ _ _ _ _ H) as E.
  assert (Hlen : length run = length (range first_step (max_steps config))).
  { rewrite <- (length_map step_key run), E. apply length_step_keys. }
  rewrite Hlen. exact E.
Qed.

(** X5.  In one run of [train] that gets through its steps, started from
    no checkpoint or resumed from one, whatever the configuration, the
    data, the seed and the state of [np.random]: no two rows, of any
    microbatch of any step of the run, get the same key, and none of their
    keys is the key the model was built from, or split from it.  The keys
    handed to [step] are the first keys of the stream from the seed, one
    per step the run makes: the key is not checkpointed, so a resumed run
    starts the stream again and its first step gets the key step 0 of the
    fresh run got. *)
Theorem train_row_keys_never_reused :
  forall (config : ExperimentConfig) (mngr : CheckpointManager)
         (model : GPT) (opt_state : OptState) (train_data val_data : list Z)
         (seed : Z) (st : RandomState) (run : list consumed),
    train_run config mngr model opt_state train_data val_data seed st = Ok run ->
    let keys :=
      flat_map (row_keys_of_step (g_accum_iters config) (batch_size config))
        (map step_key run) in
    NoDup keys /\
    (forall x, In x keys -> ~ derived_from (snd (split2 (PRNGKey seed))) x) /\
    map step_key run = step_keys (length run) (fst (split2 (PRNGKey seed))).
Proof.
  intros config mngr model opt_state train_data val_data seed st run H keys.
  subst keys. cbn [split2 fst snd].
  pose proof (train_run_step_keys _ _ _ _ _ _ _ _ _ H) as E.
  rewrite E.
  destruct (train_row_keys_fresh seed (g_accum_iters config) (batch_size config)
              (length run)) as [Hnd Hfresh].
  split; [exact Hnd|]. split; [exact Hfresh|reflexivity].
Qed.

Lemma train_row_keys_never_reused_witness :
  exists run : list consumed,
    train_run tiny_config mngr_after_step0 (scale_only 10) (opt_at 1 1 1)
      tiny_train tiny_val 0 np_state_a = Ok run /\
    map itr run = [1%Z] /\
    NoDup (flat_map (row_keys_of_step 2 2) (map step_key run)) /\
    (forall x,
        In x (flat_map (row_keys_of_step 2 2) (map step_key run)) ->
        ~ derived_from (snd (split2 (PRNGKey 0))) x) /\
    map step_key run = step_keys (length run) (fst (split2 (PRNGKey 0))).
Proof.
  destruct (train_run tiny_config mngr_after_step0 (scale_only 10) (opt_at 1 1 1)
              tiny_train tiny_val 0 np_state_a) as [run|e] eqn:E.
  - exists run. split; [reflexivity|]. split.
    + vm_compute in E. injection E as <-. reflexivity.
    + exact (train_row_keys_never_reused tiny_config mngr_after_step0
               (scale_only 10) (opt_at 1 1 1) tiny_train tiny_val 0
               np_state_a run E).
  - vm_compute in E. discriminate.
Defined.

Local Opaque split.

Lemma main_keys_derived (eval_interval : Z) (batch_size : nat) (steps : list Z) :
  forall key ks x,
    main_keys eval_interval batch_size steps key = Ok ks ->
    In x ks -> derived_from key x /\ x <> key.
Proof.
  assert (Hne : forall key x, derived_from key x -> depth key < depth x -> x <> key).
  { intros key x _ Hd ->. lia. }
  assert (Hstrict : forall key c n i x,
             derived_from key c -> derived_from (SplitKey c n i) x ->
             derived_from key x /\ x <> key).
  { intros key c n i x Hc Hx. split.
    - apply (derived_from_trans key (SplitKey c n i)); [|exact Hx].
      apply derived_from_child. exact Hc.
    - intros ->. apply above_depth in Hc. apply above_depth in Hx.
      simpl in Hx. lia. }
  induction steps as [|i rest IH]; intros key ks x H Hin; cbn [main_keys] in H.
  - injection H as <-. contradiction.
  - destruct (eval_interval =? 0)%Z; [discriminate|].
    destruct (i mod eval_interval =? 0)%Z.
    + cbn [split3] in H.
      destruct (main_keys eval_interval batch_size rest
                  (SplitKey (SplitKey key 3 0) 3 0)) as [more|e] eqn:E;
        cbn [bind] in H; [|discriminate].
      injection H as <-.
      assert (H0 : derived_from key (SplitKey key 3 0))
        by (right; apply derived_from_refl).
      rewrite <- app_assoc in Hin.
      apply in_app_or in Hin. destruct Hin as [Hin|Hin];
        [|apply in_app_or in Hin; destruct Hin as [Hin|Hin]];
        [| |destruct Hin as [<-|Hin];
            [|apply in_app_or in Hin; destruct Hin as [Hin|Hin]]].
      * apply derived_from_split in Hin. destruct Hin as [j ->].
        apply (Hstrict key key 3 1); [apply derived_from_refl|].
        right. apply derived_from_refl.
      * apply derived_from_split in Hin. destruct Hin as [j ->].
        apply (Hstrict key key 3 2); [apply derived_from_refl|].
        right. apply derived_from_refl.
      * apply (Hstrict key (SplitKey key 3 0) 3 1); [exact H0|].
        apply derived_from_refl.
      * apply derived_from_split in Hin. destruct Hin as [j ->].
        apply (Hstrict key (SplitKey key 3 0) 3 2); [exact H0|].
        right. apply derived_from_refl.
      * destruct (IH _ _ _ E Hin) as [Hd _].
        apply (Hstrict key (SplitKey key 3 0) 3 0); [exact H0|exact Hd].
    + cbn [split3] in H.
      destruct (main_keys eval_interval batch_size rest (SplitKey key 3 0))
        as [more|e] eqn:E; cbn [bind] in H; [|discriminate].
      injection H as <-. cbn [app] in Hin.
      destruct Hin as [<-|Hin];
        [|apply in_app_or in Hin; destruct Hin as [Hin|Hin]].
      * apply (Hstrict key key 3 1); [apply derived_from_refl|].
        apply derived_from_refl.
      * apply derived_from_split in Hin. destruct Hin as [j ->].
        apply (Hstrict key key 3 2); [apply derived_from_refl|].
        right. apply derived_from_refl.
      * destruct (IH _ _ _ E Hin) as [Hd _].
        apply (Hstrict key key 3 0); [apply derived_from_refl|exact Hd].
Qed.

Lemma split_derived (k x : KeyArray) (n : nat) :
  In x (split k n) -> derived_from k x.
Proof.
  intros H. apply derived_from_split in H. destruct H as [i ->].
  right. apply derived_from_refl.
Qed.

Lemma disjoint_derived (c : KeyArray) (n m i j : nat) (A B : list KeyArray) :
  i <> j ->
  (forall x, In x A -> derived_from (SplitKey c n i) x) ->
  (forall x, In x B -> derived_from (SplitKey c m j) x) ->
  forall x, In x A -> ~ In x B.
Proof.
  intros Hij HA HB x Ha Hb.
  exact (siblings_disjoint c x n m i j Hij (HA x Ha) (HB x Hb)).
Qed.

(** The keys of one training step of [main], ahead of keys split from the
    key the loop carries on. *)
Lemma NoDup_main_step (key : KeyArray) (B : nat) (more : list KeyArray) :
  NoDup more ->
  (forall x, In x more -> derived_from (SplitKey key 3 0) x) ->
  NoDup (SplitKey key 3 1 :: split (SplitKey key 3 2) B ++ more).
Proof.
  intros Hnd Hmore. constructor.
  - intros Hin. apply in_app_or in Hin. destruct Hin as [Hin|Hin].
    + apply split_derived in Hin.
      exact (siblings_disjoint key (SplitKey key 3 1) 3 3 1 2 ltac:(discriminate)
               (derived_from_refl _) Hin).
    + apply Hmore in Hin.
      exact (siblings_disjoint key (SplitKey key 3 1) 3 3 1 0 ltac:(discriminate)
               (derived_from_refl _) Hin).
  - apply NoDup_app; [apply NoDup_split | exact Hnd |].
    apply (disjoint_derived key 3 3 2 0); [discriminate | | exact Hmore].
    intros x Hx. exact (split_derived _ _ _ Hx).
Qed.

Lemma main_keys_step_derived (key : KeyArray) (B : nat) (more : list KeyArray) :
  (forall x, In x more -> derived_from (SplitKey key 3 0) x) ->
  forall x, In x (SplitKey key 3 1 :: split (SplitKey key 3 2) B ++ more) ->
            derived_from key x.
Proof.
  intros Hmore x [<-|Hin].
  - right. apply derived_from_refl.
  - apply in_app_or in Hin. destruct Hin as [Hin|Hin].
    + apply split_derived in Hin.
      apply (derived_from_trans key (SplitKey key 3 2)); [|exact Hin].
      right. apply derived_from_refl.
    + apply Hmore in Hin.
      apply (derived_from_trans key (SplitKey key 3 0)); [|exact Hin].
      right. apply derived_from_refl.
Qed.

Lemma NoDup_main_keys (eval_interval : Z) (batch_size : nat) (steps : list Z) :
  forall key ks,
    main_keys eval_interval batch_size steps key = Ok ks -> NoDup ks.
Proof.
  induction steps as [|i rest IH]; intros key ks H; cbn [main_keys] in H.
  - injection H as <-. constructor.
  - destruct (eval_interval =? 0)%Z; [discriminate|].
    destruct (i mod eval_interval =? 0)%Z; cbn [split3] in H.
    + destruct (main_keys eval_interval batch_size rest
                  (SplitKey (SplitKey key 3 0) 3 0)) as [more|e] eqn:E;
        cbn [bind] in H; [|discriminate].
      injection H as <-.
      assert (Hmore : forall x, In x more ->
                                derived_from (SplitKey (SplitKey key 3 0) 3 0) x)
        by (intros x Hx; exact (proj1 (main_keys_derived _ _ _ _ _ _ E Hx))).
      apply NoDup_app.
      * apply NoDup_app; [apply NoDup_split | apply NoDup_split |].
        apply (disjoint_derived key 3 3 1 2); [discriminate | |];
          intros x Hx; exact (split_derived _ _ _ Hx).
      * apply NoDup_main_step; [exact (IH _ _ E) | exact Hmore].
      * intros x Hx Hin.
        pose proof (main_keys_step_derived _ batch_size more Hmore x Hin) as Hc.
        apply in_app_or in Hx. destruct Hx as [Hx|Hx]; apply split_derived in Hx.
        -- exact (siblings_disjoint key x 3 3 1 0 ltac:(discriminate) Hx Hc).
        -- exact (siblings_disjoint key x 3 3 2 0 ltac:(discriminate) Hx Hc).
    + destruct (main_keys eval_interval batch_size rest (SplitKey key 3 0))
        as [more|e] eqn:E; cbn [bind] in H; [|discriminate].
      injection H as <-. cbn [app].
      apply NoDup_main_step; [exact (IH _ _ E)|].
      intros x Hx. exact (proj1 (main_keys_derived _ _ _ _ _ _ E Hx)).
Qed.

Lemma main_keys_returns (eval_interval : Z) (batch_size : nat) (steps : list Z) :
  eval_interval <> 0%Z ->
  forall key, exists ks, main_keys eval_interval batch_size steps key = Ok ks.
Proof.
  intros Hne. induction steps as [|i rest IH]; intros key; cbn [main_keys].
  - exists []. reflexivity.
  - destruct (Z.eqb_spec eval_interval 0) as [?|_]; [contradiction|].
    destruct (i mod eval_interval =? 0)%Z; cbn [split3].
    + destruct (IH (SplitKey (SplitKey key 3 0) 3 0)) as [more E].
      rewrite E. eexists. reflexivity.
    + destruct (IH (SplitKey key 3 0)) as [more E].
      rewrite E. eexists. reflexivity.
Qed.

(** X6.  In the single-device script, for any evaluation interval other
    than 0, batch size and steps: the loop of [main] goes through, and no
    key reaches two consumers: the keys of the evaluation batches, of the
    training batches and of the rows in [loss_fn] are pairwise different,
    and none is the key the model was built from or split from it. *)
Theorem main_keys_fresh :
  forall (seed eval_interval : Z) (batch_size : nat) (steps : list Z),
    eval_interval <> 0%Z ->
    let '(key, model_key) := split2 (PRNGKey seed) in
    exists ks : list KeyArray,
      main_keys eval_interval batch_size steps key = Ok ks /\
      NoDup ks /\
      forall x, In x ks -> ~ derived_from model_key x.
Proof.
  intros seed eval_interval batch_size steps Hne. cbn [split2].
  destruct (main_keys_returns eval_interval batch_size steps Hne
              (SplitKey (PRNGKey seed) 2 0)) as [ks E].
  exists ks. split; [exact E|]. split; [exact (NoDup_main_keys _ _ _ _ _ E)|].
  intros x Hin Hm.
  pose proof (proj1 (main_keys_derived _ _ _ _ _ _ E Hin)) as Hk.
  exact (siblings_disjoint (PRNGKey seed) x 2 2 0 1 ltac:(discriminate) Hk Hm).
Qed.

Local Transparent split.

Lemma main_keys_fresh_witness :
  exists ks : list KeyArray,
    main_keys 2 1 [0; 1]%Z (SplitKey (PRNGKey 0) 2 0) = Ok ks /\
    NoDup ks /\
    forall x, In x ks -> ~ derived_from (SplitKey (PRNGKey 0) 2 1) x.
Proof.
  apply (main_keys_fresh 0 2 1 [0; 1]%Z). discriminate.
Defined.

(** ** The sharding manager: what it changes and what it leaves *)

Lemma placed_module sharding_fn mesh shard_model n fs :
  placed sharding_fn mesh shard_model (EqxModule n fs)
  = EqxModule n (map (placed sharding_fn mesh shard_model) fs).
Proof.
  unfold placed. rewrite !map_wts_module, map_map. reflexivity.
Qed.

Lemma placed_keeps_structure_values mesh shard_model m :
  tree_structure (placed with_sharding_constraint mesh shard_model m)
  = tree_structure m /\
  map leaf_values (tree_leaves (placed with_sharding_constraint mesh shard_model m))
  = map leaf_values (tree_leaves m).
Proof.
  induction m as [w b|w|w b|x|o| |n fs IH] using GPT_tree_ind;
    try (split; reflexivity).
  rewrite placed_module. simpl. split.
  - f_equal. rewrite map_map. apply map_ext_Forall.
    eapply Forall_impl; [|exact IH]. intros f [H _]. exact H.
  - rewrite !flat_map_concat_map, !concat_map, !map_map. f_equal.
    apply map_ext_Forall.
    eapply Forall_impl; [|exact IH]. intros f [_ H]. exact H.
Qed.

(** X7.  A call of [shard_gpt] under its default placing function that
    returns hands back a tree of the structure it was given, whose leaves
    hold what they held: element types, shapes and bits of the arrays and
    the other objects are untouched; only placements change. *)
Theorem shard_gpt_keeps_structure_and_values :
  forall (model model' : GPT) (mesh : Mesh) (shard_model : bool),
    shard_gpt model mesh shard_model with_sharding_constraint = Ok model' ->
    tree_structure model' = tree_structure model /\
    map leaf_values (tree_leaves model') = map leaf_values (tree_leaves model).
Proof.
  intros model model' mesh shard_model H. rewrite shard_gpt_eq in H.
  destruct (Nat.eqb (n_arrays model) (n_placed model)); [|discriminate].
  injection H as <-. apply placed_keeps_structure_values.
Qed.

Lemma shard_gpt_keeps_structure_and_values_witness :
  tree_structure (placed with_sharding_constraint mesh8 true (scale_only 10))
  = tree_structure (scale_only 10) /\
  map leaf_values
    (tree_leaves (placed with_sharding_constraint mesh8 true (scale_only 10)))
  = map leaf_values (tree_leaves (scale_only 10)).
Proof.
  apply (shard_gpt_keeps_structure_and_values (scale_only 10) _ mesh8 true).
  reflexivity.
Defined.

Lemma flat_map_nil_inv {A B : Type} (f : A -> list B) (l : list A) :
  flat_map f l = [] -> Forall (fun a => f a = []) l.
Proof.
  induction l as [|a l IH]; simpl; intros H.
  - constructor.
  - apply app_eq_nil in H. destruct H as [Ha Hl].
    constructor; [exact Ha | exact (IH Hl)].
Qed.

Lemma placed_places_all mesh shard_model m :
  unplaced m = [] ->
  Forall (placed_as mesh shard_model)
    (tree_leaves (placed with_sharding_constraint mesh shard_model m)).
Proof.
  induction m as [w b|w|w b|x|o| |n fs IH] using GPT_tree_ind; intros Hu.
  - destruct b; [discriminate|]. repeat constructor.
    destruct shard_model; (eexists; split; [reflexivity|]; split; [reflexivity|]);
      simpl; [right; left; reflexivity | repeat constructor].
  - repeat constructor.
    destruct shard_model; (eexists; split; [reflexivity|]; split; [reflexivity|]);
      simpl; [right; left; reflexivity | repeat constructor].
  - destruct b; [discriminate|]. repeat constructor.
    destruct shard_model; (eexists; split; [reflexivity|]; split; [reflexivity|]);
      simpl; [left; reflexivity | repeat constructor].
  - discriminate.
  - repeat constructor.
  - constructor.
  - rewrite placed_module. simpl in *.
    apply flat_map_nil_inv in Hu.
    induction IH as [|f fs Hf _ IHfs]; simpl.
    + constructor.
    + inversion Hu as [|? ? Hu1 Hu2]; subst.
      apply Forall_app. split; [exact (Hf Hu1) | exact (IHfs Hu2)].
Qed.

(** X8.  A call of [shard_gpt] under its default placing function that
    returns leaves no array without a placement: every array leaf of the
    result is placed on the given mesh, split along the ['data'] axis when
    [shard_model] is set, and split along no axis (a full copy on every
    device) when it is not. *)
Theorem shard_gpt_places_every_array :
  forall (model model' : GPT) (mesh : Mesh) (shard_model : bool),
    shard_gpt model mesh shard_model with_sharding_constraint = Ok model' ->
    Forall (placed_as mesh shard_model) (tree_leaves model').
Proof.
  intros model model' mesh shard_model H.
  rewrite shard_gpt_eq in H.
  destruct (Nat.eqb (n_arrays model) (n_placed model)) eqn:E; [|discriminate].
  injection H as <-. apply placed_places_all.
  apply Nat.eqb_eq in E. rewrite n_arrays_split in E.
  destruct (unplaced model); [reflexivity|simpl in E; lia].
Qed.

Lemma shard_gpt_places_every_array_witness :
  Forall (placed_as mesh8 false)
    (tree_leaves (placed with_sharding_constraint mesh8 false (scale_only 10))).
Proof.
  apply (shard_gpt_places_every_array (scale_only 10) _ mesh8 false).
  reflexivity.
Defined.

(** X9.  [shard_gpt] accepts exactly the models all of whose arrays are
    weights of Linear, Embedding or LayerNorm layers: whatever the mesh, the
    mode and the placing function, it returns when the model holds no other
    array, and only then. *)
Theorem shard_gpt_accepts_iff_all_placed :
  forall (model : GPT) (mesh : Mesh) (shard_model : bool)
         (sharding_fn : Array -> NamedSharding -> Array),
    returns (shard_gpt model mesh shard_model sharding_fn) = true
    <-> unplaced model = [].
Proof.
  intros model mesh shard_model sharding_fn.
  rewrite shard_gpt_eq, n_arrays_split.
  destruct (unplaced model) as [|a l]; simpl.
  - rewrite Nat.add_0_r, Nat.eqb_refl. split; reflexivity.
  - replace (Nat.eqb _ _) with false by (symmetry; apply Nat.eqb_neq; lia).
    split; discriminate.
Qed.

(** ** The checkpoint manager over a run *)

Lemma latest_step_single (opts : CheckpointManagerOptions) (s : Z) (it : Item) :
  latest_step (mkManager opts [(s, it)]) = Some s.
Proof. reflexivity. Qed.

Lemma save_options (mngr : CheckpointManager) (s : Z) (it : Item) :
  options (fst (save mngr s it)) = options mngr.
Proof. unfold save. destruct (should_save mngr s); reflexivity. Qed.

Lemma latest_step_some_nonempty (mngr : CheckpointManager) (L : Z) :
  latest_step mngr = Some L -> checkpoints mngr <> [].
Proof.
  unfold latest_step, all_steps. destruct (checkpoints mngr); [discriminate|].
  intros _. discriminate.
Qed.

(** One save under the options of [train]: afterwards the manager holds at
    most as many checkpoints as before and at most one if the save was
    written, and its latest step is not lower than before. *)
Lemma save_invariant (eval_interval : Z) (mngr : CheckpointManager) (s : Z) (it : Item) :
  options mngr = ckpt_options eval_interval ->
  length (checkpoints mngr) <= 1 ->
  length (checkpoints (fst (save mngr s it))) <= 1 /\
  (forall L, latest_step mngr = Some L ->
             exists L', latest_step (fst (save mngr s it)) = Some L' /\ (L <= L')%Z).
Proof.
  intros Hopt Hlen. destruct (should_save mngr s) eqn:Hs.
  - rewrite (save_accepted eval_interval mngr s it Hopt Hs). cbn [fst].
    split; [simpl; lia|].
    intros L HL. exists s. split; [reflexivity|].
    unfold should_save in Hs. rewrite HL in Hs.
    apply andb_prop in Hs. destruct Hs as [Hlt _].
    apply Z.ltb_lt in Hlt. lia.
  - rewrite (save_refused mngr s it Hs). cbn [fst].
    split; [exact Hlen|]. intros L HL. exists L. split; [exact HL|lia].
Qed.

(** X10.  Over any sequence of saves of the loop of [train], a manager that
    starts with at most one checkpoint never holds more than one, and its
    latest step never goes down: an older step never takes the place of a
    newer one. *)
Theorem run_saves_keeps_one_latest :
  forall (eval_interval : Z) (items : Z -> Item) (steps : list Z)
         (mngr : CheckpointManager),
    options mngr = ckpt_options eval_interval ->
    length (checkpoints mngr) <= 1 ->
    length (checkpoints (run_saves mngr items steps)) <= 1 /\
    options (run_saves mngr items steps) = options mngr /\
    (forall L, latest_step mngr = Some L ->
               exists L', latest_step (run_saves mngr items steps) = Some L' /\
                          (L <= L')%Z).
Proof.
  intros eval_interval items steps.
  induction steps as [|s steps IH]; intros mngr Hopt Hlen.
  - simpl. split; [exact Hlen|]. split; [reflexivity|].
    intros L HL. exists L. split; [exact HL|lia].
  - unfold run_saves in *. cbn [fold_left].
    destruct (save_invariant eval_interval mngr s (items s) Hopt Hlen) as [H1 H2].
    pose proof (save_options mngr s (items s)) as Ho.
    destruct (IH (fst (save mngr s (items s)))) as [I1 [I2 I3]].
    { rewrite Ho. exact Hopt. }
    { exact H1. }
    split; [exact I1|]. split; [rewrite I2; exact Ho|].
    intros L HL. destruct (H2 L HL) as [L1 [HL1 Hle1]].
    destruct (I3 L1 HL1) as [L' [HL' Hle']].
    exists L'. split; [exact HL'|lia].
Qed.

Lemma run_saves_keeps_one_latest_witness :
  length (checkpoints (run_saves mngr_after_step0 (fun _ => ([], [])) [1; 5; 1000; 3]%Z))
  <= 1 /\
  options (run_saves mngr_after_step0 (fun _ => ([], [])) [1; 5; 1000; 3]%Z)
  = options mngr_after_step0 /\
  (forall L, latest_step mngr_after_step0 = Some L ->
             exists L',
               latest_step (run_saves mngr_after_step0 (fun _ => ([], []))
                              [1; 5; 1000; 3]%Z) = Some L' /\
               (L <= L')%Z).
Proof.
  apply (run_saves_keeps_one_latest 1000).
  - reflexivity.
  - simpl. lia.
Defined.

Lemma range_snoc (a b : Z) :
  (a <= b)%Z -> range a (b + 1) = range a b ++ [b].
Proof.
  intros H. unfold range.
  replace (Z.to_nat (b + 1 - a)) with (Z.to_nat (b - a) + 1) by lia.
  rewrite seq_app, map_app. simpl. f_equal. f_equal. lia.
Qed.

Lemma run_saves_snoc mngr items steps s :
  run_saves mngr items (steps ++ [s])
  = fst (save (run_saves mngr items steps) s (items s)).
Proof. unfold run_saves. rewrite fold_left_app. reflexivity. Qed.

Lemma next_multiple (k n : Z) :
  (0 < k)%Z -> (0 <= n)%Z ->
  ((n + 1) mod k = 0 -> k * ((n + 1) / k) = n + 1)%Z /\
  ((n + 1) mod k <> 0 -> (n + 1) / k = n / k)%Z.
Proof.
  intros Hk Hn. split; intros H.
  - pose proof (Z.div_mod (n + 1) k ltac:(lia)). lia.
  - pose proof (Z.div_mod (n + 1) k ltac:(lia)) as E.
    pose proof (Z.mod_pos_bound (n + 1) k Hk) as B.
    apply (Z.div_unique n k ((n + 1) / k) ((n + 1) mod k - 1)); lia.
Qed.

(** The manager of a run that saved at the steps [first, ..., n], from a
    manager holding the checkpoint [(L, it)] with [L < first]. *)
Lemma run_saves_from (k : Z) (items : Z -> Item) (L : Z) (it : Item) (m : nat) :
  (0 < k)%Z -> (0 <= L)%Z ->
  let n := (L + Z.of_nat m)%Z in
  checkpoints
    (run_saves (mkManager (ckpt_options k) [(L, it)]) items (range (L + 1) (n + 1)))
  = [if (L <? k * (n / k))%Z then (k * (n / k), items (k * (n / k)))%Z else (L, it)]
  /\ options
       (run_saves (mkManager (ckpt_options k) [(L, it)]) items (range (L + 1) (n + 1)))
     = ckpt_options k.
Proof.
  intros Hk HL. induction m as [|m IH]; cbv zeta in *.
  - replace (L + Z.of_nat 0)%Z with L by lia.
    rewrite range_empty by lia. simpl.
    pose proof (Z.mul_div_le L k Hk).
    destruct (Z.ltb_spec L (k * (L / k))) as [H'|_]; [lia|]. split; reflexivity.
  - destruct IH as [IHc IHo].
    set (n := (L + Z.of_nat m)%Z) in *.
    replace (L + Z.of_nat (S m))%Z with (n + 1)%Z by lia.
    rewrite range_snoc by lia. rewrite run_saves_snoc.
    set (M := run_saves (mkManager (ckpt_options k) [(L, it)]) items
                (range (L + 1) (n + 1))) in *.
    assert (Hn : (0 <= n)%Z) by lia.
    destruct (next_multiple k n Hk Hn) as [Hmul Hnot].
    assert (Hlatest : latest_step M
                      = Some (if (L <? k * (n / k))%Z then k * (n / k) else L)%Z).
    { unfold latest_step, all_steps. rewrite IHc.
      destruct (L <? k * (n / k))%Z; reflexivity. }
    assert (Hbelow : ((if (L <? k * (n / k))%Z then k * (n / k) else L) < n + 1)%Z).
    { pose proof (Z.mul_div_le n k Hk). destruct (L <? k * (n / k))%Z; lia. }
    destruct (Z.eqb_spec ((n + 1) mod k) 0) as [Hz|Hnz].
    + assert (Hs : should_save M (n + 1) = true).
      { unfold should_save. rewrite Hlatest, IHo. cbn [save_interval_steps ckpt_options].
        rewrite Hz. apply andb_true_intro. split; [apply Z.ltb_lt; exact Hbelow|reflexivity]. }
      rewrite (save_accepted k M (n + 1) _ IHo Hs). cbn [fst checkpoints options].
      rewrite (Hmul Hz).
      destruct (Z.ltb_spec L (n + 1)) as [_|H']; [|lia]. split; [reflexivity|exact IHo].
    + assert (Hs : should_save M (n + 1) = false).
      { unfold should_save. rewrite Hlatest, IHo. cbn [save_interval_steps ckpt_options].
        destruct (Z.eqb_spec ((n + 1) mod k) 0) as [?|_]; [contradiction|].
        apply andb_false_r. }
      rewrite (save_refused M (n + 1) _ Hs). cbn [fst].
      rewrite (Hnot Hnz). split; [exact IHc|exact IHo].
Qed.

(** X11.  A run of [train] from no checkpoint, with a positive
    [eval_interval] and outside debug mode, that has got through the steps
    0 to [n]: the manager holds one checkpoint, that of the greatest
    multiple of [eval_interval] up to [n], with the leaves saved at that
    step; fewer than [eval_interval] steps lie past it. *)
Theorem fresh_run_checkpoint :
  forall (eval_interval : Z) (items : Z -> Item) (n : Z),
    (0 < eval_interval)%Z ->
    (0 <= n)%Z ->
    let mngr :=
      run_saves (mkManager (ckpt_options eval_interval) []) items (range 0 (n + 1)) in
    let last := (eval_interval * (n / eval_interval))%Z in
    checkpoints mngr = [(last, items last)] /\
    latest_step mngr = Some last /\
    (n - eval_interval < last <= n)%Z.
Proof.
  intros k items n Hk Hn. cbv zeta.
  rewrite range_first by lia. unfold run_saves. cbn [fold_left].
  assert (Hfirst : fst (save (mkManager (ckpt_options k) []) 0 (items 0%Z))
                   = mkManager (ckpt_options k) [(0%Z, items 0%Z)])
    by reflexivity.
  rewrite Hfirst. fold (run_saves (mkManager (ckpt_options k) [(0%Z, items 0%Z)])
                          items (range (0 + 1) (n + 1))).
  destruct (run_saves_from k items 0 (items 0%Z) (Z.to_nat n) Hk ltac:(lia))
    as [Hc _].
  cbv zeta in Hc. replace (0 + Z.of_nat (Z.to_nat n))%Z with n in Hc by lia.
  pose proof (Z.mul_div_le n k Hk) as Hle.
  pose proof (Z.mod_pos_bound n k Hk) as Hmod.
  pose proof (Z.div_mod n k ltac:(lia)) as Hdm.
  pose proof (Z.div_pos n k Hn Hk) as Hq.
  assert (Hc' : checkpoints (run_saves (mkManager (ckpt_options k) [(0%Z, items 0%Z)])
                               items (range (0 + 1) (n + 1)))
                = [((k * (n / k))%Z, items (k * (n / k))%Z)]).
  { rewrite Hc. destruct (Z.ltb_spec 0 (k * (n / k))) as [_|H0]; [reflexivity|].
    replace (k * (n / k))%Z with 0%Z by nia. reflexivity. }
  split; [exact Hc'|]. split.
  - unfold latest_step, all_steps. rewrite Hc'. reflexivity.
  - lia.
Qed.

Lemma fresh_run_checkpoint_witness :
  checkpoints (run_saves (mkManager (ckpt_options 1000) [])
                 (fun i => ([LObject (PyInt i)], [])) (range 0 (2500 + 1)))
  = [((1000 * (2500 / 1000))%Z,
      ([LObject (PyInt (1000 * (2500 / 1000)))], []))] /\
  latest_step (run_saves (mkManager (ckpt_options 1000) [])
                 (fun i => ([LObject (PyInt i)], [])) (range 0 (2500 + 1)))
  = Some (1000 * (2500 / 1000))%Z /\
  (2500 - 1000 < 1000 * (2500 / 1000) <= 2500)%Z.
Proof.
  apply (fresh_run_checkpoint 1000 (fun i => ([LObject (PyInt i)], [])) 2500); lia.
Defined.

(** X12.  A run resumed from the checkpoint of step [L], outside debug
    mode, that has got through the steps [L + 1] to [n]: the manager still
    holds the checkpoint of [L], untouched, until a multiple of
    [eval_interval] past [L] has been reached, and from then on the
    checkpoint of the greatest such multiple up to [n]. *)
Theorem resumed_run_checkpoint :
  forall (eval_interval : Z) (items : Z -> Item) (L : Z) (it : Item) (n : Z),
    (0 < eval_interval)%Z ->
    (0 <= L)%Z ->
    (L <= n)%Z ->
    let last := (eval_interval * (n / eval_interval))%Z in
    checkpoints
      (run_saves (mkManager (ckpt_options eval_interval) [(L, it)]) items
         (range (L + 1) (n + 1)))
    = [if (L <? last)%Z then (last, items last) else (L, it)].
Proof.
  intros k items L it n Hk HL Hn. cbv zeta.
  destruct (run_saves_from k items L it (Z.to_nat (n - L)) Hk HL) as [Hc _].
  cbv zeta in Hc. replace (L + Z.of_nat (Z.to_nat (n - L)))%Z with n in Hc by lia.
  exact Hc.
Qed.

Lemma resumed_run_checkpoint_witness :
  checkpoints
    (run_saves (mkManager (ckpt_options 1000) [(1000%Z, ([], []))])
       (fun i => ([LObject (PyInt i)], [])) (range (1000 + 1) (1999 + 1)))
  = [if (1000 <? 1000 * (1999 / 1000))%Z
     then ((1000 * (1999 / 1000))%Z, ([LObject (PyInt (1000 * (1999 / 1000)))], []))
     else (1000%Z, ([], []))].
Proof.
  apply (resumed_run_checkpoint 1000 (fun i => ([LObject (PyInt i)], []))
           1000 ([], []) 1999); lia.
Defined.

(** ** Restoring into the fresh trees *)

Lemma length_opt_leaves (b : option Array) :
  length (opt_leaves b) = if has b then 1 else 0.
Proof. destruct b; reflexivity. Qed.

(** A tree has as many leaves as its structure asks for. *)
Lemma length_gpt_leaves (m : GPT) :
  length (gpt_leaves m) = num_leaves (gpt_structure m).
Proof.
  induction m as [w b|w|w b|x|o| |n fs IH] using GPT_tree_ind;
    try (destruct b; reflexivity); try reflexivity.
  simpl. rewrite length_flat_map_sum, map_map. f_equal.
  apply map_ext_Forall. exact IH.
Qed.

Lemma gpt_unflatten_length (d : GPTDef) (ls : list leaf) (m : GPT) :
  gpt_unflatten d ls = Ok m -> length ls = num_leaves d.
Proof.
  intros H. unfold gpt_unflatten in H.
  destruct (gpt_fill d ls) as [[m' r]|e] eqn:E; simpl in H; [|discriminate].
  destruct r; [|discriminate]. injection H as <-.
  apply gpt_fill_inv in E. destruct E as [Hs ->].
  rewrite app_nil_r, <- Hs. apply length_gpt_leaves.
Qed.

(** X13.  Start-up on a checkpoint whose model leaves are not as many as
    the leaves of the freshly built model does not go through: it raises,
    and no step is run. *)
Theorem restore_checkpoint_leaf_count_mismatch :
  forall (mngr : CheckpointManager) (last : Z) (model_leaves opt_leaves : list leaf)
         (model : GPT) (opt_state : OptState),
    latest_step mngr = Some last ->
    restore mngr last = Ok (model_leaves, opt_leaves) ->
    length model_leaves <> length (tree_leaves model) ->
    returns (restore_checkpoint mngr model opt_state) = false /\
    forall max_steps,
      returns (train_steps mngr max_steps model opt_state) = false.
Proof.
  intros mngr last ml ol model opt_state Hl Hr Hlen.
  assert (E : exists e, tree_unflatten (tree_structure model) ml = Raise e).
  { destruct (tree_unflatten (tree_structure model) ml) as [m|e] eqn:E.
    - exfalso. apply Hlen. simpl in E.
      rewrite (gpt_unflatten_length _ _ _ E). simpl.
      symmetry. apply length_gpt_leaves.
    - exists e. reflexivity. }
  destruct E as [e E].
  assert (R : restore_checkpoint mngr model opt_state = Raise e).
  { unfold restore_checkpoint. rewrite Hl, Hr. cbn [bind]. rewrite E. reflexivity. }
  split.
  - rewrite R. reflexivity.
  - intros max_steps. unfold train_steps. rewrite R. reflexivity.
Qed.

Lemma restore_checkpoint_leaf_count_mismatch_witness :
  returns (restore_checkpoint mngr_after_step0 biased_block (opt_at 0 0 0)) = false /\
  forall max_steps,
    returns (train_steps mngr_after_step0 max_steps biased_block (opt_at 0 0 0)) = false.
Proof.
  apply (restore_checkpoint_leaf_count_mismatch mngr_after_step0 0
           (tree_leaves (scale_only 10)) (tree_leaves (opt_at 1 1 1))).
  - reflexivity.
  - reflexivity.
  - simpl. lia.
Defined.

Lemma take_array_of_array (a : Array) (rest : list leaf) :
  take_array (LArray a :: rest) = Ok (a, rest).
Proof. reflexivity. Qed.

(** Filling a structure from a sequence that starts with enough arrays
    goes through and uses exactly as many as the structure asks for. *)
Lemma gpt_fill_arrays (d : GPTDef) :
  forall (ls rest : list leaf),
    Forall (fun l => is_array l = true) ls ->
    length ls = num_leaves d ->
    exists m, gpt_fill d (ls ++ rest) = Ok (m, rest) /\ gpt_leaves m = ls.
Proof.
  induction d as [hb| |hb| | |n ds IH] using GPTDef_tree_ind;
    intros ls rest Harr Hlen.
  - destruct hb; simpl in Hlen.
    + destruct ls as [|[a|o] [|[b|o'] [|]]]; try discriminate;
        inversion Harr as [|? ? H1 H2]; subst; try discriminate;
        inversion H2 as [|? ? H3 _]; subst; try discriminate.
      exists (Linear a (Some b)). split; reflexivity.
    + destruct ls as [|[a|o] [|]]; try discriminate;
        inversion Harr as [|? ? H1 _]; subst; try discriminate.
      exists (Linear a None). split; reflexivity.
  - simpl in Hlen. destruct ls as [|[a|o] [|]]; try discriminate;
      inversion Harr as [|? ? H1 _]; subst; try discriminate.
    exists (Embedding a). split; reflexivity.
  - destruct hb; simpl in Hlen.
    + destruct ls as [|[a|o] [|[b|o'] [|]]]; try discriminate;
        inversion Harr as [|? ? H1 H2]; subst; try discriminate;
        inversion H2 as [|? ? H3 _]; subst; try discriminate.
      exists (LayerNorm a (Some b)). split; reflexivity.
    + destruct ls as [|[a|o] [|]]; try discriminate;
        inversion Harr as [|? ? H1 _]; subst; try discriminate.
      exists (LayerNorm a None). split; reflexivity.
  - simpl in Hlen. destruct ls as [|[a|o] [|]]; try discriminate;
      inversion Harr as [|? ? H1 _]; subst; try discriminate.
    exists (ArrayLeaf a). split; reflexivity.
  - simpl in Hlen. destruct ls; [|discriminate].
    exists NoneNode. split; reflexivity.
  - rewrite gpt_fill_module.
    assert (Hfs : exists fs, fill_fields ds (ls ++ rest) = Ok (fs, rest) /\
                             flat_map gpt_leaves fs = ls).
    { simpl in Hlen. clear n. revert ls Harr Hlen.
      induction IH as [|d ds Hd _ IHds]; intros ls Harr Hlen; simpl in *.
      - destruct ls; [|discriminate]. exists []. split; reflexivity.
      - rewrite <- (firstn_skipn (num_leaves d) ls) in *.
        set (l1 := firstn (num_leaves d) ls) in *.
        set (l2 := skipn (num_leaves d) ls) in *.
        apply Forall_app in Harr. destruct Harr as [Ha1 Ha2].
        assert (Hl1 : length l1 = num_leaves d)
          by (unfold l1; rewrite length_firstn; rewrite length_app in Hlen;
              unfold l1, l2 in Hlen; rewrite length_firstn, length_skipn in Hlen; lia).
        assert (Hl2 : length l2 = list_sum (map num_leaves ds))
          by (rewrite length_app in Hlen; lia).
        destruct (Hd l1 (l2 ++ rest) Ha1 Hl1) as [f [Ef Lf]].
        destruct (IHds l2 Ha2 Hl2) as [fs [Efs Lfs]].
        exists (f :: fs). rewrite <- app_assoc, Ef. cbn [bind]. rewrite Efs.
        cbn [bind]. split; [reflexivity|]. simpl. rewrite Lf, Lfs. reflexivity. }
    destruct Hfs as [fs [Efs Lfs]].
    exists (EqxModule n fs). rewrite Efs. split; [reflexivity|exact Lfs].
Qed.

(** X14.  What restoring does not check: any sequence of arrays with as
    many members as the fresh model has leaves is put into the structure of
    the fresh model, whatever the shapes, element types and contents of the
    arrays; the tree handed back holds exactly these arrays, in order. *)
Theorem tree_unflatten_takes_any_arrays :
  forall (model : GPT) (leaves : list leaf),
    Forall (fun l => is_array l = true) leaves ->
    length leaves = length (tree_leaves model) ->
    exists model' : GPT,
      tree_unflatten (tree_structure model) leaves = Ok model' /\
      tree_leaves model' = leaves /\
      tree_structure model' = tree_structure model.
Proof.
  intros model leaves Harr Hlen. simpl in *.
  rewrite length_gpt_leaves in Hlen.
  destruct (gpt_fill_arrays (gpt_structure model) leaves [] Harr Hlen) as [m [E L]].
  rewrite app_nil_r in E.
  exists m. unfold gpt_unflatten. rewrite E. cbn [bind].
  split; [reflexivity|]. split; [exact L|].
  apply gpt_fill_inv in E. exact (proj1 E).
Qed.

Lemma tree_unflatten_takes_any_arrays_witness :
  exists model' : GPT,
    tree_unflatten (tree_structure (scale_only 10))
      [LArray (mkArray int32 [7; 7] [] None)] = Ok model' /\
    tree_leaves model' = [LArray (mkArray int32 [7; 7] [] None)] /\
    tree_structure model' = tree_structure (scale_only 10).
Proof.
  apply (tree_unflatten_takes_any_arrays (scale_only 10)).
  - repeat constructor.
  - reflexivity.
Defined.

(** ** The learning-rate schedule: bounds and edges *)

(** X15.  For a configuration with [0 < warmup_steps < lr_decay_steps] and
    [min_lr <= learning_rate], [0 < learning_rate]: the learning rate never
    leaves the range the configuration gives.  It lies between 0 and the
    peak over the steps 0 to [warmup_steps], and between the minimum and the
    peak from step [warmup_steps] on. *)
Theorem scheduler_stays_in_range :
  forall config : ExperimentConfig,
    (0 < warmup_steps config)%Z ->
    (warmup_steps config < lr_decay_steps config)%Z ->
    (0 < learning_rate config)%R ->
    (min_lr config <= learning_rate config)%R ->
    exists sched : Schedule,
      scheduler config = Ok sched /\
      (forall step : Z,
          (0 <= step <= warmup_steps config)%Z ->
          (0 <= sched step <= learning_rate config)%R) /\
      (forall step : Z,
          (warmup_steps config <= step)%Z ->
          (min_lr config <= sched step <= learning_rate config)%R).
Proof.
  intros config Hw Hd Hp Hf.
  unfold scheduler. rewrite (schedule_is_lr _ _ _ _ Hd).
  eexists. split; [reflexivity|].
  set (peak := learning_rate config) in *. set (floor := min_lr config) in *.
  set (w := warmup_steps config) in *. set (d := lr_decay_steps config) in *.
  pose proof (lr_step_0 peak floor w d Hw) as E0.
  pose proof (lr_at_warmup peak floor w d Hd Hp) as Ew.
  split.
  - intros step [H0 H1]. rewrite (joined_is_lr _ _ _ _ Hw).
    pose proof (lr_warmup_monotone peak floor w d Hw Hd Hp 0 step H0 H1).
    pose proof (lr_warmup_monotone peak floor w d Hw Hd Hp step w H1 (Z.le_refl w)).
    lra.
  - intros step H1. rewrite (joined_is_lr _ _ _ _ Hw).
    pose proof (lr_decay_monotone peak floor w d Hw Hd Hp Hf w step (Z.le_refl w) H1).
    pose proof (lr_decay_monotone peak floor w d Hw Hd Hp Hf step (Z.max step d)
                  H1 (Z.le_max_l step d)).
    pose proof (lr_after_decay peak floor w d Hw Hd Hp (Z.max step d)
                  (Z.le_max_r step d)).
    lra.
Qed.

Lemma scheduler_stays_in_range_witness :
  exists sched : Schedule,
    scheduler openwebtext_config = Ok sched /\
    (forall step : Z,
        (0 <= step <= 5000)%Z -> (0 <= sched step <= 6 / 10000)%R) /\
    (forall step : Z,
        (5000 <= step)%Z -> (1 / 100000 <= sched step <= 6 / 10000)%R).
Proof.
  apply (scheduler_stays_in_range openwebtext_config); simpl; lia || lra.
Defined.

(** X16.  The edges of the scheduler.  It cannot be built exactly when
    [lr_decay_steps <= warmup_steps]: optax counts the decay steps from
    step 0, and [train] stops with a ValueError before its first step.
    And without warmup ([warmup_steps = 0]) the schedule starts at the peak:
    the learning rate of step 0 is [learning_rate], not 0. *)
Theorem scheduler_edges :
  forall config : ExperimentConfig,
    (scheduler config
     = Raise (ValueError "The cosine_decay_schedule requires positive decay_steps!")
     <-> (lr_decay_steps config <= warmup_steps config)%Z) /\
    (returns (scheduler config) = true
     <-> (warmup_steps config < lr_decay_steps config)%Z) /\
    (warmup_steps config = 0%Z ->
     (0 < lr_decay_steps config)%Z ->
     learning_rate config <> 0%R ->
     exists sched : Schedule,
       scheduler config = Ok sched /\ sched 0%Z = learning_rate config).
Proof.
  intros config.
  unfold scheduler, warmup_cosine_decay_schedule, cosine_decay_schedule.
  destruct (Z.leb_spec (lr_decay_steps config - warmup_steps config) 0) as [H|H];
    cbn [bind returns].
  - split; [split; [lia|reflexivity]|]. split; [split; [discriminate|lia]|].
    intros Hw Hd _. lia.
  - split; [split; [discriminate|lia]|]. split; [split; [lia|reflexivity]|].
    intros Hw Hd Hp. eexists. split; [reflexivity|].
    unfold join_schedules. rewrite Hw.
    destruct (Z.ltb_spec 0 0) as [?|_]; [lia|].
    change (0 - 0)%Z with 0%Z.
    replace (Z.min 0 (lr_decay_steps config - 0)) with 0%Z by lia.
    replace (PI * 0 / IZR (lr_decay_steps config - 0))%R with 0%R
      by (unfold Rdiv; ring).
    rewrite cos_0. field. exact Hp.
Qed.

Lemma scheduler_edges_witness :
  exists sched : Schedule,
    scheduler (mkExperimentConfig "" "" (1 / 1000)%R 2 0 (1 / 10000)%R 10 2
                 (95 / 100)%R (1 / 10)%R 1000 "" 2 false tiny_model_config false)
    = Ok sched /\
    sched 0%Z = (1 / 1000)%R.
Proof.
  apply (proj2 (proj2 (scheduler_edges
           (mkExperimentConfig "" "" (1 / 1000)%R 2 0 (1 / 10000)%R 10 2
              (95 / 100)%R (1 / 10)%R 1000 "" 2 false tiny_model_config false))));
    simpl; lia || lra.
Defined.

(** ** The optimizer over a run *)

Section Optimizer_runs.

Import Optax Training.
Local Open Scope R_scope.

Variable position : Type.
Variable positions : list position.

Lemma sum_squares_scaled (c : R) (t : Tree position) (l : list position) :
  fold_right Rplus 0 (map (fun i => (t i * c) * (t i * c)) l)
  = (c * c) * fold_right Rplus 0 (map (fun i => t i * t i) l).
Proof.
  induction l as [|i l IH]; simpl.
  - ring.
  - rewrite IH. ring.
Qed.

Lemma sum_squares_nonneg (t : Tree position) (l : list position) :
  0 <= fold_right Rplus 0 (map (fun i => t i * t i) l).
Proof.
  induction l as [|i l IH]; simpl.
  - lra.
  - pose proof (Rle_0_sqr (t i)) as H. unfold Rsqr in H. lra.
Qed.

(** X17.  What [clip_by_global_norm] hands on, for any positive threshold:
    a gradient of global norm below the threshold goes through unchanged;
    any other comes out with global norm exactly the threshold.  So the
    gradient Adam sees in [train] never has a global norm above 1. *)
Theorem clip_by_global_norm_bound :
  forall (max_norm : R) (updates : Tree position) (state : EmptyState)
         (params : Tree position),
    0 < max_norm ->
    let out := fst (update (clip_by_global_norm positions max_norm) updates state params) in
    (global_norm positions updates < max_norm -> forall i, out i = updates i) /\
    (max_norm <= global_norm positions updates ->
     global_norm positions out = max_norm) /\
    global_norm positions out <= max_norm.
Proof.
  intros max_norm updates state params Hm out.
  assert (Hsmall : global_norm positions updates < max_norm ->
                   forall i, out i = updates i).
  { intros Hlt i. unfold out. simpl. unfold tree_map, select_lt.
    destruct (Rlt_dec (global_norm positions updates) max_norm);
      [reflexivity|contradiction]. }
  assert (Hlarge : max_norm <= global_norm positions updates ->
                   global_norm positions out = max_norm).
  { intros Hge. set (n := global_norm positions updates) in *.
    assert (Hn : 0 < n) by lra.
    assert (Hout : forall i, out i = updates i * (max_norm / n)).
    { intros i. unfold out. simpl. unfold tree_map, select_lt. fold n.
      destruct (Rlt_dec n max_norm); [lra|]. unfold Rdiv. ring. }
    unfold global_norm at 1.
    rewrite (map_ext _ (fun i => (updates i * (max_norm / n))
                                 * (updates i * (max_norm / n))))
      by (intros i; rewrite Hout; reflexivity).
    rewrite sum_squares_scaled.
    assert (Hc : 0 <= max_norm / n).
    { apply Rlt_le. apply Rdiv_lt_0_compat; assumption. }
    rewrite sqrt_mult;
      [|apply Rmult_le_pos; exact Hc | apply sum_squares_nonneg].
    rewrite sqrt_square by exact Hc.
    change (sqrt (fold_right Rplus 0 (map (fun i => updates i * updates i) positions)))
      with n.
    field. lra. }
  split; [exact Hsmall|]. split; [exact Hlarge|].
  destruct (Rlt_dec (global_norm positions updates) max_norm) as [Hlt|Hge].
  - unfold global_norm at 1.
    rewrite (map_ext _ (fun i => updates i * updates i))
      by (intros i; rewrite (Hsmall Hlt i); reflexivity).
    fold (global_norm positions updates). lra.
  - rewrite Hlarge by lra. lra.
Qed.

Lemma safe_int32_increment_min (n : nat) :
  safe_int32_increment (Z.min (Z.of_nat n) max_int32)
  = Z.min (Z.of_nat (S n)) max_int32.
Proof.
  unfold safe_int32_increment.
  destruct (Z.ltb_spec (Z.min (Z.of_nat n) max_int32) max_int32); lia.
Qed.

Lemma optimizer_step_counts config sched grad (s : ChainState position)
  (p : Tree position) :
  adam_count (adam_state (fst (optimizer_step positions config sched grad (s, p))))
  = safe_int32_increment (adam_count (adam_state s)) /\
  count (schedule_state (fst (optimizer_step positions config sched grad (s, p))))
  = safe_int32_increment (count (schedule_state s)).
Proof.
  destruct s as [e1 [adam [e2 [sch e3]]]]. split; reflexivity.
Qed.

(** X18.  The two counters of the optimizer count the steps of the run:
    after [n] steps from the initial state, whatever the gradients were,
    the count of Adam and the count of the schedule both are [n], up to the
    largest int32, where they stop.  So step [k] of a run that started from
    no checkpoint takes its learning rate from the schedule at [k]. *)
Theorem optimizer_counts_steps :
  forall (config : ExperimentConfig) (sched : Schedule)
         (grad_at : nat -> Tree position -> Tree position)
         (model : Tree position) (n : nat),
    let state :=
      fst (optimizer_steps positions config sched grad_at n
             (optimizer_init positions config sched model, model)) in
    adam_count (adam_state state) = Z.min (Z.of_nat n) max_int32 /\
    count (schedule_state state) = Z.min (Z.of_nat n) max_int32.
Proof.
  intros config sched grad_at model n. cbv zeta.
  induction n as [|n [IHa IHs]].
  - split; reflexivity.
  - cbn [optimizer_steps].
    destruct (optimizer_steps positions config sched grad_at n
                (optimizer_init positions config sched model, model))
      as [s p] eqn:E.
    cbn [fst snd] in *.
    destruct (optimizer_step_counts config sched (grad_at n p) s p) as [Ha Hs].
    rewrite Ha, Hs, IHa, IHs. split; apply safe_int32_increment_min.
Qed.


End Optimizer_runs.

Lemma clip_by_global_norm_bound_witness :
  let out :=
    fst (Optax.update (Optax.clip_by_global_norm [true; false] 1)
           (fun b : bool => if b then 3 else 4)%R Optax.mkEmptyState
           (fun _ => 0%R)) in
  (Optax.global_norm [true; false] (fun b : bool => if b then 3 else 4)%R < 1 ->
   forall i, out i = (if i then 3 else 4)%R)%R /\
  ((1 <= Optax.global_norm [true; false] (fun b : bool => if b then 3 else 4))%R ->
   Optax.global_norm [true; false] out = 1%R) /\
  (Optax.global_norm [true; false] out <= 1)%R.
Proof.
  apply (clip_by_global_norm_bound bool [true; false] 1%R). lra.
Defined.

